(** * A shallow embedding of the weasel battle engine (src/team.rs, src/actor.rs,
    src/fight.rs), together with the kernel pieces the events rely on. *)

From Stdlib Require Import ZArith.
From stdpp Require Import base gmap list option.

(** ** Relations between teams (team.rs) *)

(** [Relation]: all possible kinds of relation between teams. *)
Inductive Relation := Ally | Enemy | Kin.

#[global] Instance Relation_eq_dec : EqDecision Relation.
Proof. solve_decision. Defined.

(** [Conclusion]: all possible conclusions for a team's objectives. *)
Inductive Conclusion := Victory | Defeat.

#[global] Instance Conclusion_eq_dec : EqDecision Conclusion.
Proof. solve_decision. Defined.

Section Relationship.

(** A team id is only required to be [Hash + Eq + PartialOrd]: equality is
    decidable and comparison is a [partial_cmp] that may answer [None]. *)
Context {TeamId : Type} `{EqDecision TeamId}.
Variable partial_cmp : TeamId -> TeamId -> option comparison.

(** Rust's [a > b] for a [PartialOrd] type. *)
Definition gt (a b : TeamId) : bool :=
  match partial_cmp a b with Some Gt => true | _ => false end.

(** [RelationshipPair]: a pair of two teams that are part of a relationship. *)
Record RelationshipPair := RelationshipPair_new { first : TeamId; second : TeamId }.

(** [RelationshipPair::values]: the two teams, first then second. *)
Definition values (p : RelationshipPair) : list TeamId := [first p; second p].

(** [impl PartialEq for RelationshipPair]. *)
Definition rp_eq (p q : RelationshipPair) : bool :=
  (bool_decide (first p = first q) && bool_decide (second p = second q))
  || (bool_decide (first p = second q) && bool_decide (second p = first q)).

(** [impl Hash for RelationshipPair]: the sequence of team ids fed to the
    hasher, in order. *)
Definition hash_feed (p : RelationshipPair) : list TeamId :=
  if gt (first p) (second p) then [first p; second p]
  else [second p; first p].

(** The value of [get_hash] for a hasher, seen as a function of the sequence of
    values written into it (a [Hasher] is order sensitive). *)
Definition get_hash (hasher : list TeamId -> Z) (p : RelationshipPair) : Z :=
  hasher (hash_feed p).

End Relationship.

Arguments RelationshipPair : clear implicits.

(** [Transmutation]: structural change requested by a rule hook. *)
Inductive Transmutation := REMOVAL.

#[global] Instance Transmutation_eq_dec : EqDecision Transmutation.
Proof. solve_decision. Defined.

Section Battle.

Context {TeamId CreatureId PlayerId StatisticId AbilityId : Type}.
Context `{Countable TeamId} `{Countable CreatureId} `{Countable PlayerId}.
Context `{Countable StatisticId} `{Countable AbilityId}.
Context {Statistic Ability Objectives ObjectivesSeed StatisticsSeed AbilitiesSeed
         StatisticsAlteration AbilitiesAlteration Impact Entropy : Type}.

(** [impl Id for Statistic] and [impl Id for Ability]. *)
Variable statistic_id : Statistic -> StatisticId.
Variable ability_id : Ability -> AbilityId.

(** The [PartialOrd] of team ids, and the hasher of the relation map as a
    function of the sequence of values written into it. *)
Variable partial_cmp : TeamId -> TeamId -> option comparison.
Variable hasher : list TeamId -> Z.

(** [EntityId]: creatures are the only kind of entity; they are actors and
    characters. *)
Inductive EntityId := EntityId_Creature (c : CreatureId).

Definition is_actor (e : EntityId) : bool :=
  match e with EntityId_Creature _ => true end.

#[global] Instance EntityId_eq_dec : EqDecision EntityId.
Proof. solve_decision. Defined.

(** [WeaselError]: the error taxonomy. *)
Inductive WeaselError :=
| DuplicatedTeam (t : TeamId)
| DuplicatedCreature (c : CreatureId)
| TeamNotFound (t : TeamId)
| CreatureNotFound (c : CreatureId)
| EntityNotFound (e : EntityId)
| NotAnActor (e : EntityId)
| SelfRelation
| KinshipRelation
| TeamNotEmpty (t : TeamId)
| RoundInProgress
| NoRoundInProgress
| IncompatibleVersions (local remote : nat)
| NonContiguousEventId (got expected : nat)
| ServerOnlyEvent
| MissingAuthentication
| AuthenticationError (player : option PlayerId) (team : TeamId).

(** [WeaselResult<(), R>]. *)
Inductive WeaselResult := Ok | Err (e : WeaselError).

(** [Team]. *)
Record Team := mkTeam {
  team_id : TeamId;
  team_creatures : list CreatureId;
  conclusion : option Conclusion;
  objectives : Objectives
}.

(** [Creature]: statistics and abilities are maps keyed by their ids. *)
Record Creature := mkCreature {
  creature_id : CreatureId;
  creature_team_id : TeamId;
  statistics : gmap StatisticId Statistic;
  abilities : gmap AbilityId Ability
}.

(** [Entities]: teams, creatures, and the relation map keyed by
    [RelationshipPair] (a hash map, as an association list under [rp_eq]). *)
Record Entities := mkEntities {
  teams : gmap TeamId Team;
  creatures : gmap CreatureId Creature;
  relations : list (RelationshipPair TeamId * Relation)
}.

(** [RoundState]. *)
Inductive RoundState := Ready | Started (e : EntityId).

(** The event variants. *)
Inductive Event :=
| DummyEvent
| CreateTeam (id : TeamId) (rels : option (list (TeamId * Relation)))
    (objectives_seed : option ObjectivesSeed)
| SetRelations (rels : list (TeamId * TeamId * Relation))
| ConcludeObjectives (id : TeamId) (c : Conclusion)
| ResetObjectives (id : TeamId) (seed : option ObjectivesSeed)
| RemoveTeam (id : TeamId)
| CreateCreature (id : CreatureId) (team : TeamId)
    (statistics_seed : option StatisticsSeed) (abilities_seed : option AbilitiesSeed)
| RemoveCreature (id : CreatureId)
| RegenerateStatistics (id : EntityId) (seed : option StatisticsSeed)
| RegenerateAbilities (id : EntityId) (seed : option AbilitiesSeed)
| AlterStatistics (id : EntityId) (alteration : StatisticsAlteration)
| AlterAbilities (id : EntityId) (alteration : AbilitiesAlteration)
| StartRound (id : EntityId)
| EndRound
| ApplyImpact (impact : Impact).

(** [Battle]: the state, the rights of players towards teams, the history of
    applied events and the entropy source threaded through rule hooks. *)
Record Battle := mkBattle {
  entities : Entities;
  rounds : RoundState;
  rights : gmap TeamId (gset PlayerId);
  history : list Event;
  entropy : Entropy
}.

(** [BattleRules]: the rules binding, its rule hooks and its version. *)
Record BattleRules := mkBattleRules {
  generate_objectives : option ObjectivesSeed -> Objectives;
  generate_statistics : option StatisticsSeed -> Entropy -> list Statistic * Entropy;
  generate_abilities : option AbilitiesSeed -> Entropy -> list Ability * Entropy;
  character_alter : gmap StatisticId Statistic -> StatisticsAlteration -> Entropy ->
                    gmap StatisticId Statistic * option Transmutation * Entropy;
  actor_alter : gmap AbilityId Ability -> AbilitiesAlteration -> Entropy ->
                gmap AbilityId Ability * Entropy;
  apply_impact : Battle -> Impact -> Entropy -> list Event * Entropy;
  version : nat
}.

Definition set_entities (b : Battle) (e : Entities) : Battle :=
  mkBattle e (rounds b) (rights b) (history b) (entropy b).
Definition set_rounds (b : Battle) (r : RoundState) : Battle :=
  mkBattle (entities b) r (rights b) (history b) (entropy b).
Definition set_rights (b : Battle) (r : gmap TeamId (gset PlayerId)) : Battle :=
  mkBattle (entities b) (rounds b) r (history b) (entropy b).
Definition set_entropy (b : Battle) (e : Entropy) : Battle :=
  mkBattle (entities b) (rounds b) (rights b) (history b) e.
Definition set_teams (e : Entities) (t : gmap TeamId Team) : Entities :=
  mkEntities t (creatures e) (relations e).
Definition set_creatures (e : Entities) (c : gmap CreatureId Creature) : Entities :=
  mkEntities (teams e) c (relations e).


Definition set_abilities (c : Creature) (a : gmap AbilityId Ability) : Creature :=
  mkCreature (creature_id c) (creature_team_id c) (statistics c) a.
Definition set_statistics (c : Creature) (s : gmap StatisticId Statistic) : Creature :=
  mkCreature (creature_id c) (creature_team_id c) s (abilities c).

Definition is_none {A} (o : option A) : bool :=
  match o with None => true | Some _ => false end.

(** ** Entity store *)

(** Modelled from the spec (entity.rs, missing): [Entities::team]. *)
Definition team (e : Entities) (id : TeamId) : option Team := teams e !! id.

(** Modelled from the spec (entity.rs, missing): [Entities::creature]. *)
Definition creature (e : Entities) (id : CreatureId) : option Creature :=
  creatures e !! id.

(** Modelled from the spec (entity.rs, missing): [Entities::entity]; every
    entity is a creature. *)
Definition entity (e : Entities) (id : EntityId) : option Creature :=
  match id with EntityId_Creature c => creature e c end.

(** Modelled from the spec (entity.rs, missing): [add_team] inserts the team
    under its id, and fails with [DuplicatedTeam] (leaving the store as it
    was) when the id exists. *)
Definition add_team (e : Entities) (t : Team) : Entities * WeaselResult :=
  match teams e !! team_id t with
  | Some _ => (e, Err (DuplicatedTeam (team_id t)))
  | None => (set_teams e (<[team_id t := t]> (teams e)), Ok)
  end.

(** Modelled from the spec (entity.rs, missing): [remove_team]; [None] is the
    [TeamNotFound] error. *)
Definition remove_team (e : Entities) (id : TeamId) : option Entities :=
  match teams e !! id with
  | Some _ => Some (set_teams e (delete id (teams e)))
  | None => None
  end.

(** [Team::remove_creature]: removes the first position holding the id;
    [None] is the panic when the id is not a member. *)
Fixpoint remove_first (x : CreatureId) (l : list CreatureId) : option (list CreatureId) :=
  match l with
  | [] => None
  | y :: l' => if decide (y = x) then Some l' else cons y <$> remove_first x l'
  end.

Definition Team_remove_creature (t : Team) (c : CreatureId) : option Team :=
  (fun cs => mkTeam (team_id t) cs (conclusion t) (objectives t))
    <$> remove_first c (team_creatures t).

(** Modelled from the spec (entity.rs, missing): [add_creature] stores the
    creature and appends its id to the owning team's members. *)
Definition add_creature (e : Entities) (c : Creature) : option Entities :=
  match teams e !! creature_team_id c with
  | None => None
  | Some t =>
      Some (mkEntities
              (<[creature_team_id c :=
                   mkTeam (team_id t) (team_creatures t ++ [creature_id c])
                          (conclusion t) (objectives t)]> (teams e))
              (<[creature_id c := c]> (creatures e))
              (relations e))
  end.

(** Modelled from the spec (entity.rs, missing): [remove_creature] removes the
    creature from the store and from its team's members; [None] is a broken
    invariant (panic). *)
Definition remove_creature (e : Entities) (id : CreatureId) : option Entities :=
  match creatures e !! id with
  | None => None
  | Some c =>
      match teams e !! creature_team_id c with
      | None => None
      | Some t =>
          match Team_remove_creature t id with
          | None => None
          | Some t' =>
              Some (mkEntities (<[creature_team_id c := t']> (teams e))
                               (delete id (creatures e)) (relations e))
          end
      end
  end.

(** The relation map is a [HashMap] keyed by [RelationshipPair]: a stored
    key [k] is the entry found for a key [q] when it lies under [q]'s hash
    ([RelationshipPair::hash], team.rs) and compares equal to [q]
    ([RelationshipPair::eq]). *)
Definition key_match (k q : RelationshipPair TeamId) : bool :=
  bool_decide (get_hash partial_cmp hasher k = get_hash partial_cmp hasher q) && rp_eq k q.

(** Any two distinct team ids are ordered one way exactly, as under a total
    order (the integer ids of the tests). *)
Definition ids_totally_ordered : Prop :=
  forall a b : TeamId, a <> b -> (partial_cmp a b = Some Gt <-> partial_cmp b a <> Some Gt).

(** Modelled from the spec (entity.rs, missing): [HashMap::insert] into the
    relation map; the entry found for the key keeps its key and takes the new
    relation, otherwise the pair is added. *)
Fixpoint relations_insert (l : list (RelationshipPair TeamId * Relation))
    (k : RelationshipPair TeamId) (r : Relation) : list (RelationshipPair TeamId * Relation) :=
  match l with
  | [] => [(k, r)]
  | (k', r') :: l' => if key_match k' k then (k', r) :: l' else (k', r') :: relations_insert l' k r
  end.

(** Modelled from the spec (entity.rs, missing): [update_relations] upserts
    each pair in order. *)
Definition update_relations (e : Entities) (pairs : list (RelationshipPair TeamId * Relation))
    : Entities :=
  mkEntities (teams e) (creatures e)
    (fold_left (fun acc p => relations_insert acc p.1 p.2) pairs (relations e)).

(** Modelled from the spec (entity.rs, missing): [HashMap::get] on the
    relation map. *)
Definition rel_find (l : list (RelationshipPair TeamId * Relation)) (q : RelationshipPair TeamId)
    : option Relation :=
  snd <$> List.find (fun p => key_match p.1 q) l.

(** Modelled from the spec (entity.rs, missing): [Entities::relation]; a team
    is [Kin] with itself, other pairs are looked up under the key
    [RelationshipPair::new(t1, t2)]. *)
Definition relation (e : Entities) (t1 t2 : TeamId) : option Relation :=
  if decide (t1 = t2) then Some Kin else rel_find (relations e) (RelationshipPair_new t1 t2).

(** Modelled from the spec (the rights module, missing): removing a team
    removes its entry. *)
Definition rights_remove_team (r : gmap TeamId (gset PlayerId)) (id : TeamId)
    : gmap TeamId (gset PlayerId) := delete id r.

(** ** Regeneration (actor.rs, [RegenerateAbilities::apply]) *)

(** The regeneration policy: collect the current entries whose id is not in
    the generated list and remove them, then add each generated entry whose id
    is not present. *)
Definition regenerate {K V} `{Countable K} (key : V -> K) (current : gmap K V)
    (generated : list V) : gmap K V :=
  let to_remove :=
    map key (List.filter
               (fun a => is_none (List.find (fun e => bool_decide (key e = key a)) generated))
               (map snd (map_to_list current))) in
  let removed := fold_left (fun m i => delete i m) to_remove current in
  fold_left (fun m a => match m !! key a with None => <[key a := a]> m | Some _ => m end)
    generated removed.

(** ** Verification of each event *)

(** [verify_is_actor] (actor.rs). *)
Definition verify_is_actor (e : Entities) (id : EntityId) : WeaselResult :=
  if negb (is_actor id) then Err (NotAnActor id)
  else match entity e id with Some _ => Ok | None => Err (EntityNotFound id) end.

(** Modelled from the spec (character.rs, missing): the entity must exist. *)
Definition verify_is_character (e : Entities) (id : EntityId) : WeaselResult :=
  match entity e id with Some _ => Ok | None => Err (EntityNotFound id) end.

(** The loop over [relations] in [CreateTeam::verify]. *)
Fixpoint CreateTeam_verify_relations (e : Entities) (id : TeamId)
    (rs : list (TeamId * Relation)) : WeaselResult :=
  match rs with
  | [] => Ok
  | (tid, rel) :: rs' =>
      if decide (tid = id) then Err SelfRelation
      else if decide (rel = Kin) then Err KinshipRelation
      else match team e tid with
           | None => Err (TeamNotFound tid)
           | Some _ => CreateTeam_verify_relations e id rs'
           end
  end.

(** [CreateTeam::verify]. *)
Definition CreateTeam_verify (b : Battle) (id : TeamId)
    (rels : option (list (TeamId * Relation))) : WeaselResult :=
  match team (entities b) id with
  | Some _ => Err (DuplicatedTeam id)
  | None =>
      match rels with
      | Some rs => CreateTeam_verify_relations (entities b) id rs
      | None => Ok
      end
  end.

(** [SetRelations::verify]. *)
Fixpoint SetRelations_verify_list (e : Entities) (rs : list (TeamId * TeamId * Relation))
    : WeaselResult :=
  match rs with
  | [] => Ok
  | (t1, t2, rel) :: rs' =>
      if decide (t1 = t2) then Err SelfRelation
      else if decide (rel = Kin) then Err KinshipRelation
      else match team e t1 with
           | None => Err (TeamNotFound t1)
           | Some _ =>
               match team e t2 with
               | None => Err (TeamNotFound t2)
               | Some _ => SetRelations_verify_list e rs'
               end
           end
  end.

Definition SetRelations_verify (b : Battle) (rs : list (TeamId * TeamId * Relation))
    : WeaselResult :=
  SetRelations_verify_list (entities b) rs.

(** [ConcludeObjectives::verify] and [ResetObjectives::verify]. *)
Definition verify_team_exists (b : Battle) (id : TeamId) : WeaselResult :=
  match team (entities b) id with None => Err (TeamNotFound id) | Some _ => Ok end.

(** [RemoveTeam::verify]. *)
Definition RemoveTeam_verify (b : Battle) (id : TeamId) : WeaselResult :=
  match team (entities b) id with
  | Some t =>
      match team_creatures t with
      | _ :: _ => Err (TeamNotEmpty id)
      | [] => Ok
      end
  | None => Err (TeamNotFound id)
  end.

(** Modelled from the spec (creature.rs, missing): [CreateCreature::verify]. *)
Definition CreateCreature_verify (b : Battle) (id : CreatureId) (tid : TeamId) : WeaselResult :=
  match creature (entities b) id with
  | Some _ => Err (DuplicatedCreature id)
  | None => match team (entities b) tid with None => Err (TeamNotFound tid) | Some _ => Ok end
  end.

(** Modelled from the spec (creature.rs, missing): [RemoveCreature::verify]. *)
Definition RemoveCreature_verify (b : Battle) (id : CreatureId) : WeaselResult :=
  match creature (entities b) id with None => Err (CreatureNotFound id) | Some _ => Ok end.

(** Modelled from the spec (round.rs, missing): a round starts from [Ready]
    on an existing actor. *)
Definition StartRound_verify (b : Battle) (id : EntityId) : WeaselResult :=
  match rounds b with
  | Started _ => Err RoundInProgress
  | Ready => verify_is_actor (entities b) id
  end.

(** Modelled from the spec (round.rs, missing): a round ends from [Started]. *)
Definition EndRound_verify (b : Battle) : WeaselResult :=
  match rounds b with Ready => Err NoRoundInProgress | Started _ => Ok end.

(** [ApplyImpact::verify] (fight.rs): impacts are not verified. *)
Definition ApplyImpact_verify (b : Battle) (impact : Impact) : WeaselResult := Ok.

(** [Event::verify], dispatched on the event variant. *)
Definition verify_event (b : Battle) (ev : Event) : WeaselResult :=
  match ev with
  | DummyEvent => Ok
  | CreateTeam id rels _ => CreateTeam_verify b id rels
  | SetRelations rs => SetRelations_verify b rs
  | ConcludeObjectives id _ => verify_team_exists b id
  | ResetObjectives id _ => verify_team_exists b id
  | RemoveTeam id => RemoveTeam_verify b id
  | CreateCreature id tid _ _ => CreateCreature_verify b id tid
  | RemoveCreature id => RemoveCreature_verify b id
  | RegenerateStatistics id _ => verify_is_character (entities b) id
  | RegenerateAbilities id _ => verify_is_actor (entities b) id
  | AlterStatistics id _ => verify_is_character (entities b) id
  | AlterAbilities id _ => verify_is_actor (entities b) id
  | StartRound id => StartRound_verify b id
  | EndRound => EndRound_verify b
  | ApplyImpact impact => ApplyImpact_verify b impact
  end.

(** ** Application of each event *)

Section Apply.

Variable r : BattleRules.

(** The teams iterated in [CreateTeam::apply] to default their relation:
    every team other than the new one and not in the explicit list. *)
Definition CreateTeam_unlisted (ents : Entities) (id : TeamId)
    (rels : option (list (TeamId * Relation))) : list TeamId :=
  List.filter
    (fun t => negb (bool_decide (t = id))
              && is_none (List.find (fun e => bool_decide (e.1 = t)) (default [] rels)))
    (map team_id (map snd (map_to_list (teams ents)))).

(** [CreateTeam::apply]. *)
Definition CreateTeam_apply (b : Battle) (id : TeamId)
    (rels : option (list (TeamId * Relation))) (seed : option ObjectivesSeed) : Battle :=
  (* Insert the new team. *)
  let ents := (add_team (entities b) (mkTeam id [] None (generate_objectives r seed))).1 in
  (* Unpack explicit relations into a vector. *)
  let explicit :=
    match rels with
    | Some rs => map (fun e => (RelationshipPair_new id e.1, e.2)) rs
    | None => []
    end in
  (* Set to Enemy all relations to other teams not explicitly set. *)
  let others := CreateTeam_unlisted ents id rels in
  set_entities b
    (update_relations ents (explicit ++ map (fun t => (RelationshipPair_new id t, Enemy)) others)).

(** [SetRelations::apply]. *)
Definition SetRelations_apply (b : Battle) (rs : list (TeamId * TeamId * Relation)) : Battle :=
  set_entities b
    (update_relations (entities b) (map (fun e => (RelationshipPair_new e.1.1 e.1.2, e.2)) rs)).

(** [team_mut] followed by an update; [None] is the panic on a missing team. *)
Definition update_team (b : Battle) (id : TeamId) (f : Team -> Team) : option Battle :=
  match teams (entities b) !! id with
  | None => None
  | Some t => Some (set_entities b (set_teams (entities b) (<[id := f t]> (teams (entities b)))))
  end.

(** [ConcludeObjectives::apply]. *)
Definition ConcludeObjectives_apply (b : Battle) (id : TeamId) (c : Conclusion) : option Battle :=
  update_team b id (fun t => mkTeam (team_id t) (team_creatures t) (Some c) (objectives t)).

(** [ResetObjectives::apply]: new objectives, and the conclusion is reset. *)
Definition ResetObjectives_apply (b : Battle) (id : TeamId) (seed : option ObjectivesSeed)
    : option Battle :=
  update_team b id
    (fun t => mkTeam (team_id t) (team_creatures t) None (generate_objectives r seed)).

(** [RemoveTeam::apply]: remove the team, then the rights towards it. *)
Definition RemoveTeam_apply (b : Battle) (id : TeamId) : option Battle :=
  match remove_team (entities b) id with
  | None => None
  | Some e => Some (set_rights (set_entities b e) (rights_remove_team (rights b) id))
  end.

(** Modelled from the spec (creature.rs, missing): [CreateCreature::apply];
    generated entries are inserted in order, so the last of an id persists. *)
Definition CreateCreature_apply (b : Battle) (id : CreatureId) (tid : TeamId)
    (sseed : option StatisticsSeed) (aseed : option AbilitiesSeed) : option Battle :=
  let '(stats, en1) := generate_statistics r sseed (entropy b) in
  let '(abis, en2) := generate_abilities r aseed en1 in
  let c := mkCreature id tid
             (fold_left (fun m s => <[statistic_id s := s]> m) stats ∅)
             (fold_left (fun m a => <[ability_id a := a]> m) abis ∅) in
  match add_creature (entities b) c with
  | None => None
  | Some e => Some (set_entropy (set_entities b e) en2)
  end.

(** Modelled from the spec (creature.rs, missing): [RemoveCreature::apply];
    removing the acting creature queues an [EndRound]. *)
Definition RemoveCreature_apply (b : Battle) (id : CreatureId) : option (Battle * list Event) :=
  match remove_creature (entities b) id with
  | None => None
  | Some e =>
      let queue :=
        match rounds b with
        | Started (EntityId_Creature c) => if decide (c = id) then [EndRound] else []
        | Ready => []
        end in
      Some (set_entities b e, queue)
  end.

(** [actor_mut] / [character_mut] followed by an update of the creature. *)
Definition update_creature (b : Battle) (c : CreatureId) (cr : Creature) : Battle :=
  set_entities b (set_creatures (entities b) (<[c := cr]> (creatures (entities b)))).

(** [RegenerateAbilities::apply]. *)
Definition RegenerateAbilities_apply (b : Battle) (id : EntityId) (seed : option AbilitiesSeed)
    : option Battle :=
  match id with
  | EntityId_Creature c =>
      match creatures (entities b) !! c with
      | None => None
      | Some actor =>
          let '(generated, en) := generate_abilities r seed (entropy b) in
          Some (set_entropy
                  (update_creature b c
                     (set_abilities actor (regenerate ability_id (abilities actor) generated)))
                  en)
      end
  end.

(** Modelled from the spec (character.rs, missing): [RegenerateStatistics::apply],
    the same policy as abilities. *)
Definition RegenerateStatistics_apply (b : Battle) (id : EntityId)
    (seed : option StatisticsSeed) : option Battle :=
  match id with
  | EntityId_Creature c =>
      match creatures (entities b) !! c with
      | None => None
      | Some ch =>
          let '(generated, en) := generate_statistics r seed (entropy b) in
          Some (set_entropy
                  (update_creature b c
                     (set_statistics ch (regenerate statistic_id (statistics ch) generated)))
                  en)
      end
  end.

(** Modelled from the spec (character.rs, missing): [AlterStatistics::apply];
    a [REMOVAL] transmutation queues a [RemoveCreature]. *)
Definition AlterStatistics_apply (b : Battle) (id : EntityId) (alt : StatisticsAlteration)
    : option (Battle * list Event) :=
  match id with
  | EntityId_Creature c =>
      match creatures (entities b) !! c with
      | None => None
      | Some ch =>
          let '(stats, tr, en) := character_alter r (statistics ch) alt (entropy b) in
          let queue := match tr with Some REMOVAL => [RemoveCreature c] | None => [] end in
          Some (set_entropy (update_creature b c (set_statistics ch stats)) en, queue)
      end
  end.

(** [AlterAbilities::apply]. *)
Definition AlterAbilities_apply (b : Battle) (id : EntityId) (alt : AbilitiesAlteration)
    : option Battle :=
  match id with
  | EntityId_Creature c =>
      match creatures (entities b) !! c with
      | None => None
      | Some actor =>
          let '(abis, en) := actor_alter r (abilities actor) alt (entropy b) in
          Some (set_entropy (update_creature b c (set_abilities actor abis)) en)
      end
  end.

(** [ApplyImpact::apply]: the fight rules enqueue the events. *)
Definition ApplyImpact_apply (b : Battle) (impact : Impact) : Battle * list Event :=
  let '(queue, en) := apply_impact r b impact (entropy b) in
  (set_entropy b en, queue).

Definition no_queue (o : option Battle) : option (Battle * list Event) :=
  (fun b => (b, [])) <$> o.

(** [Event::apply], dispatched on the event variant; it returns the new state
    and the event queue filled by the event, [None] on a panic. *)
Definition apply_event (b : Battle) (ev : Event) : option (Battle * list Event) :=
  match ev with
  | DummyEvent => Some (b, [])
  | CreateTeam id rels seed => Some (CreateTeam_apply b id rels seed, [])
  | SetRelations rs => Some (SetRelations_apply b rs, [])
  | ConcludeObjectives id c => no_queue (ConcludeObjectives_apply b id c)
  | ResetObjectives id seed => no_queue (ResetObjectives_apply b id seed)
  | RemoveTeam id => no_queue (RemoveTeam_apply b id)
  | CreateCreature id tid ss sa => no_queue (CreateCreature_apply b id tid ss sa)
  | RemoveCreature id => RemoveCreature_apply b id
  | RegenerateStatistics id seed => no_queue (RegenerateStatistics_apply b id seed)
  | RegenerateAbilities id seed => no_queue (RegenerateAbilities_apply b id seed)
  | AlterStatistics id alt => AlterStatistics_apply b id alt
  | AlterAbilities id alt => no_queue (AlterAbilities_apply b id alt)
  | StartRound id => Some (set_rounds b (Started id), [])
  | EndRound => Some (set_rounds b Ready, [])
  | ApplyImpact impact => Some (ApplyImpact_apply b impact)
  end.

End Apply.

(** ** The event kernel *)

(** Appending an applied event to the history. *)
Definition push_history (b : Battle) (ev : Event) : Battle :=
  mkBattle (entities b) (rounds b) (rights b) (history b ++ [ev]) (entropy b).

(** Modelled from the spec (battle.rs and server.rs, missing): processing a
    server-origin event: verify, apply, append to the history, then process the
    queued follow-up events in order, each one in full (with its own
    follow-ups) before the next.  [fuel] bounds the nesting depth; [None] means
    the kernel did not finish (a panic, or the nesting bound). *)
Fixpoint process_server (r : BattleRules) (fuel : nat) (b : Battle) (ev : Event)
    : option (Battle * WeaselResult) :=
  match verify_event b ev with
  | Err err => Some (b, Err err)
  | Ok =>
      match apply_event r b ev with
      | None => None
      | Some (b1, queue) =>
          let fix drain (b : Battle) (q : list Event) : option (Battle * WeaselResult) :=
            match q with
            | [] => Some (b, Ok)
            | e :: q' =>
                match fuel with
                | O => None
                | S fuel' =>
                    match process_server r fuel' b e with
                    | None => None
                    | Some (b', Ok) => drain b' q'
                    | Some (b', Err err) => Some (b', Err err)
                    end
                end
            end in
          drain (push_history b1 ev) queue
      end
  end.

(** [ClientEventPrototype]: an event sent upstream by a client. *)
Record ClientEventPrototype := mkClientEventPrototype {
  proto_version : nat;
  proto_event : Event;
  proto_player : option PlayerId
}.

(** [VersionedEventWrapper]: an event sent downstream by the server. *)
Record VersionedEventWrapper := mkVersionedEventWrapper {
  event_id : nat;
  rules_version : nat;
  payload : Event
}.

(** [Server]. *)
Record Server := mkServer {
  server_battle : Battle;
  enforce_authentication : bool
}.

(** [Client]. *)
Record Client := mkClient {
  client_battle : Battle;
  client_player : option PlayerId
}.

(** Server-only event kinds. *)
Definition server_only (ev : Event) : bool :=
  match ev with
  | CreateTeam _ _ _ | SetRelations _ | ConcludeObjectives _ _ | ResetObjectives _ _
  | RemoveTeam _ | CreateCreature _ _ _ _ | RemoveCreature _ => true
  | _ => false
  end.

(** Modelled from the spec: the team an event acts upon, when rights apply. *)
Definition event_team (b : Battle) (ev : Event) : option TeamId :=
  let owner e := creature_team_id <$> entity (entities b) e in
  match ev with
  | CreateTeam id _ _ | ConcludeObjectives id _ | ResetObjectives id _ | RemoveTeam id => Some id
  | CreateCreature _ tid _ _ => Some tid
  | RemoveCreature c => owner (EntityId_Creature c)
  | RegenerateStatistics e _ | RegenerateAbilities e _ | AlterStatistics e _
  | AlterAbilities e _ | StartRound e => owner e
  | _ => None
  end.

(** Modelled from the spec: the rights check of a client-origin event. *)
Definition check_rights (srv : Server) (p : ClientEventPrototype) : WeaselResult :=
  if enforce_authentication srv then
    match proto_player p with
    | None => Err MissingAuthentication
    | Some player =>
        match event_team (server_battle srv) (proto_event p) with
        | None => Ok
        | Some t =>
            if bool_decide (player ∈ default ∅ (rights (server_battle srv) !! t))
            then Ok else Err (AuthenticationError (Some player) t)
        end
    end
  else Ok.

(** Modelled from the spec (server.rs, missing): processing a client-origin
    prototype: the version check (the error carries the prototype's version,
    then the server's), the server-only check, the rights check, then the
    server-origin pipeline. *)
Definition process_client (r : BattleRules) (fuel : nat) (srv : Server)
    (p : ClientEventPrototype) : option (Server * WeaselResult) :=
  if negb (bool_decide (proto_version p = version r)) then
    Some (srv, Err (IncompatibleVersions (proto_version p) (version r)))
  else if server_only (proto_event p) then Some (srv, Err ServerOnlyEvent)
  else
    match check_rights srv p with
    | Err err => Some (srv, Err err)
    | Ok =>
        (fun res => (mkServer res.1 (enforce_authentication srv), res.2))
          <$> process_server r fuel (server_battle srv) (proto_event p)
    end.

(** Modelled from the spec (client.rs, missing): [Client::receive]: version
    check, id contiguity check, verify, apply (follow-ups are not drained on a
    client: they arrive from the server as events of their own), append. *)
Definition client_receive (r : BattleRules) (c : Client) (w : VersionedEventWrapper)
    : option (Client * WeaselResult) :=
  let b := client_battle c in
  if negb (bool_decide (rules_version w = version r)) then
    Some (c, Err (IncompatibleVersions (version r) (rules_version w)))
  else if negb (bool_decide (event_id w = length (history b))) then
    Some (c, Err (NonContiguousEventId (event_id w) (length (history b))))
  else
    match verify_event b (payload w) with
    | Err err => Some (c, Err err)
    | Ok =>
        match apply_event r b (payload w) with
        | None => None
        | Some (b1, _) => Some (mkClient (push_history b1 (payload w)) (client_player c), Ok)
        end
    end.

(** Modelled from the spec (client.rs, missing): firing on a client builds a
    prototype stamped with the client's rules version and ships it through the
    server sink; the client's state is not touched, and the result of the
    server is the result of [fire]. *)
Definition client_fire (rc rs : BattleRules) (fuel : nat) (c : Client) (srv : Server)
    (ev : Event) : option (Server * WeaselResult) :=
  process_client rs fuel srv (mkClientEventPrototype (version rc) ev (client_player c)).

(** ** Properties *)

(** Maps keyed by the id of the value they hold ([HashMap<Id, T>] filled
    through [add_ability] / [add_team]). *)
Definition keyed {K V} `{Countable K} (key : V -> K) (m : gmap K V) : Prop :=
  map_Forall (fun k v => key v = k) m.

Lemma elem_of_list_map {A B} (f : A -> B) (l : list A) (y : B) :
  y ∈ map f l <-> exists x, y = f x /\ x ∈ l.
Proof.
  rewrite list_elem_of_In, in_map_iff. split.
  - intros (x & <- & Hx). exists x. split; [done|]. by apply list_elem_of_In.
  - intros (x & -> & Hx). exists x. split; [done|]. by apply list_elem_of_In.
Qed.

Lemma elem_of_list_filter_bool {A} (p : A -> bool) (l : list A) (x : A) :
  x ∈ List.filter p l <-> p x = true /\ x ∈ l.
Proof. rewrite !list_elem_of_In, filter_In. tauto. Qed.

Lemma fold_delete_lookup {K V} `{Countable K} (l : list K) (m : gmap K V) (k : K) :
  fold_left (fun m i => delete i m) l m !! k = if bool_decide (k ∈ l) then None else m !! k.
Proof.
  revert m. induction l as [|i l IH]; intros m; simpl.
  - done.
  - rewrite IH. destruct (decide (k = i)) as [->|Hne].
    + rewrite lookup_delete_eq.
      case_bool_decide; case_bool_decide; try done; exfalso; set_solver.
    + rewrite lookup_delete_ne by congruence.
      case_bool_decide as Hb1; case_bool_decide as Hb2; try done; exfalso; set_solver.
Qed.

Lemma find_key_none {K V} `{EqDecision K} (key : V -> K) (gen : list V) (k : K) :
  List.find (fun e => bool_decide (key e = k)) gen = None <-> k ∉ map key gen.
Proof.
  induction gen as [|a gen IH]; simpl.
  - split; [intros _ ?%elem_of_nil; done|done].
  - case_bool_decide as Hk; split.
    + done.
    + intros Hn. exfalso. apply Hn. subst. left.
    + intros Hf. rewrite elem_of_cons. intros [->|Hin]; [done|]. by apply IH.
    + intros Hn. apply IH. intros Hin. apply Hn. by right.
Qed.

Lemma fold_add_lookup {K V} `{Countable K} (key : V -> K) (gen : list V) (m : gmap K V) (k : K) :
  fold_left (fun m a => match m !! key a with None => <[key a := a]> m | Some _ => m end) gen m !! k
  = match m !! k with
    | Some v => Some v
    | None => List.find (fun e => bool_decide (key e = k)) gen
    end.
Proof.
  revert m. induction gen as [|a gen IH]; intros m; simpl.
  - by destruct (m !! k).
  - rewrite IH. destruct (decide (key a = k)) as [<-|Hne].
    + rewrite (bool_decide_true (key a = key a)) by done.
      destruct (m !! key a) eqn:E; [by rewrite E|]. by rewrite lookup_insert_eq.
    + rewrite (bool_decide_false (key a = k)) by done.
      destruct (m !! key a) eqn:E; [done|]. by rewrite lookup_insert_ne.
Qed.

(** The regeneration policy, entry by entry. *)
Lemma regenerate_lookup {K V} `{Countable K} (key : V -> K) (current : gmap K V)
    (generated : list V) (k : K) :
  keyed key current ->
  regenerate key current generated !! k =
    if bool_decide (k ∈ map key generated) then
      match current !! k with
      | Some v => Some v
      | None => List.find (fun e => bool_decide (key e = k)) generated
      end
    else None.
Proof.
  intros Hkeyed. unfold regenerate. rewrite fold_add_lookup, fold_delete_lookup.
  set (to_remove := map key _).
  assert (Hrem : k ∈ to_remove <-> is_Some (current !! k) /\ k ∉ map key generated).
  { unfold to_remove. rewrite elem_of_list_map. split.
    - intros (v & -> & Hv). apply elem_of_list_filter_bool in Hv as [Hn Hv].
      apply elem_of_list_map in Hv as ([k' v'] & Hkv & Hin). simpl in Hkv. subst v'.
      apply elem_of_map_to_list in Hin. pose proof (map_Forall_lookup_1 _ _ _ _ Hkeyed Hin) as Hk.
      simpl in Hk. subst k'. split; [by eexists|]. apply find_key_none.
      destruct (List.find _ _); done.
    - intros [[v Hv] Hn]. pose proof (map_Forall_lookup_1 _ _ _ _ Hkeyed Hv) as Hk.
      simpl in Hk. exists v. split; [done|].
      apply elem_of_list_filter_bool. split.
      + rewrite Hk. apply find_key_none in Hn. by rewrite Hn.
      + apply elem_of_list_map. exists (k, v). split; [done|]. by apply elem_of_map_to_list. }
  destruct (decide (k ∈ map key generated)) as [Hin|Hin].
  - rewrite (bool_decide_true (k ∈ map key generated)) by done.
    rewrite bool_decide_false; [done|]. intros Hr. by apply Hrem in Hr as [_ Hr].
  - rewrite (bool_decide_false (k ∈ map key generated)) by done.
    apply find_key_none in Hin. rewrite Hin.
    case_bool_decide as Hr; [done|].
    destruct (current !! k) eqn:E; [|done].
    exfalso. apply Hr, Hrem. split; [by eexists|]. by apply find_key_none.
Qed.

(** C1: on an existing actor, [RegenerateAbilities] passes verification and
    leaves exactly the ids generated from the seed: entries already held keep
    their value, entries not generated are removed, and new ids are added with
    the generated ability (the first of that id in the generated list). *)
Theorem RegenerateAbilities_regenerates (r : BattleRules) (b : Battle) (c : CreatureId)
    (actor : Creature) (seed : option AbilitiesSeed) :
  creatures (entities b) !! c = Some actor ->
  keyed ability_id (abilities actor) ->
  let generated := (generate_abilities r seed (entropy b)).1 in
  verify_event b (RegenerateAbilities (EntityId_Creature c) seed) = Ok /\
  exists b' actor',
    RegenerateAbilities_apply r b (EntityId_Creature c) seed = Some b' /\
    creatures (entities b') !! c = Some actor' /\
    (forall k, is_Some (abilities actor' !! k) <-> k ∈ map ability_id generated) /\
    (forall k a, abilities actor !! k = Some a -> k ∈ map ability_id generated ->
       abilities actor' !! k = Some a) /\
    (forall k, is_Some (abilities actor !! k) -> k ∉ map ability_id generated ->
       abilities actor' !! k = None) /\
    (forall k, abilities actor !! k = None -> k ∈ map ability_id generated ->
       exists a, abilities actor' !! k = Some a /\ a ∈ generated /\ ability_id a = k /\
         List.find (fun e => bool_decide (ability_id e = k)) generated = Some a).
Proof.
  intros Hc Hkeyed generated. split.
  { simpl. unfold verify_is_actor, entity, creature. simpl. by rewrite Hc. }
  unfold RegenerateAbilities_apply. rewrite Hc. subst generated.
  destruct (generate_abilities r seed (entropy b)) as [gen en]. simpl.
  eexists _, _. split; [reflexivity|]. split.
  { simpl. by rewrite lookup_insert_eq. }
  simpl. pose proof (regenerate_lookup ability_id (abilities actor) gen) as HR.
  split; [|split; [|split]].
  - intros k. rewrite (HR k Hkeyed). case_bool_decide as Hin.
    + split; [done|]. intros _. destruct (abilities actor !! k); [by eexists|].
      destruct (List.find _ gen) eqn:E; [by eexists|].
      by apply find_key_none in E.
    + split; [intros []; done|done].
  - intros k a Ha Hin. rewrite (HR k Hkeyed), bool_decide_true by done. by rewrite Ha.
  - intros k _ Hin. rewrite (HR k Hkeyed), bool_decide_false by done. done.
  - intros k Ha Hin. rewrite (HR k Hkeyed), bool_decide_true by done. rewrite Ha.
    destruct (List.find _ gen) as [a|] eqn:E.
    + pose proof (find_some _ _ E) as [Ein Ek]. apply bool_decide_eq_true in Ek.
      exists a. split; [done|]. split; [by apply list_elem_of_In|]. done.
    + by apply find_key_none in E.
Qed.

Lemma rp_eq_spec (p q : RelationshipPair TeamId) :
  rp_eq p q = true <->
  (first p = first q /\ second p = second q) \/ (first p = second q /\ second p = first q).
Proof. unfold rp_eq. by rewrite orb_true_iff, !andb_true_iff, !bool_decide_eq_true. Qed.

Lemma rp_eq_refl (p : RelationshipPair TeamId) : rp_eq p p = true.
Proof. apply rp_eq_spec. by left. Qed.

Lemma rp_eq_sym (p q : RelationshipPair TeamId) : rp_eq p q = rp_eq q p.
Proof.
  destruct p, q. apply Bool.eq_true_iff_eq. rewrite !rp_eq_spec. simpl. naive_solver.
Qed.

Lemma rp_eq_trans (p q s : RelationshipPair TeamId) :
  rp_eq p q = true -> rp_eq q s = true -> rp_eq p s = true.
Proof. destruct p, q, s. rewrite !rp_eq_spec. simpl. naive_solver. Qed.

(** Two keys sharing the new team [id] are equal only on the same other team. *)
Lemma rp_eq_same_first (id t o : TeamId) :
  id <> o -> rp_eq (RelationshipPair_new id t) (RelationshipPair_new id o) = true -> t = o.
Proof. rewrite rp_eq_spec. simpl. naive_solver. Qed.

Lemma key_match_refl (k : RelationshipPair TeamId) : key_match k k = true.
Proof. unfold key_match. by rewrite bool_decide_true, rp_eq_refl. Qed.

Lemma key_match_sym (k q : RelationshipPair TeamId) : key_match k q = key_match q k.
Proof.
  unfold key_match. rewrite rp_eq_sym. f_equal.
  case_bool_decide; case_bool_decide; congruence.
Qed.

Lemma key_match_trans (k q s : RelationshipPair TeamId) :
  key_match k q = true -> key_match q s = true -> key_match k s = true.
Proof.
  unfold key_match. rewrite !andb_true_iff, !bool_decide_eq_true.
  intros [Hh1 He1] [Hh2 He2]. split; [congruence|]. exact (rp_eq_trans _ _ _ He1 He2).
Qed.

Lemma key_match_rp_eq (k q : RelationshipPair TeamId) : key_match k q = true -> rp_eq k q = true.
Proof. unfold key_match. rewrite andb_true_iff. by intros [_ ?]. Qed.

(** Under totally ordered ids the key's hash does not depend on the order of
    the pair. *)
Lemma get_hash_swap (Htot : ids_totally_ordered) (t1 t2 : TeamId) :
  get_hash partial_cmp hasher (RelationshipPair_new t1 t2)
  = get_hash partial_cmp hasher (RelationshipPair_new t2 t1).
Proof.
  unfold get_hash, hash_feed, gt. simpl. f_equal.
  destruct (decide (t1 = t2)) as [->|Hne]; [done|].
  specialize (Htot t1 t2 Hne).
  destruct (partial_cmp t1 t2) as [[]|]; destruct (partial_cmp t2 t1) as [[]|];
    try done; exfalso; naive_solver.
Qed.

(** ... so that a key is found exactly under the keys equal to it. *)
Lemma key_match_total (Htot : ids_totally_ordered) (k q : RelationshipPair TeamId) :
  key_match k q = rp_eq k q.
Proof.
  unfold key_match. destruct (rp_eq k q) eqn:E; [|by rewrite andb_false_r].
  rewrite andb_true_r. apply bool_decide_true.
  destruct k as [a c], q as [a' c']. apply rp_eq_spec in E. simpl in E.
  destruct E as [[-> ->]|[-> ->]]; [done|]. apply (get_hash_swap Htot).
Qed.

Lemma relations_insert_find l k v q :
  rel_find (relations_insert l k v) q = if key_match k q then Some v else rel_find l q.
Proof.
  unfold rel_find. induction l as [|[k' r'] l IH]; simpl.
  - by destruct (key_match k q).
  - destruct (key_match k' k) eqn:Ek; simpl.
    + destruct (key_match k' q) eqn:Eq'; destruct (key_match k q) eqn:Eq; try done.
      * exfalso. rewrite key_match_sym in Ek.
        pose proof (key_match_trans _ _ _ Ek Eq'). congruence.
      * exfalso. pose proof (key_match_trans _ _ _ Ek Eq). congruence.
    + destruct (key_match k' q) eqn:Eq'.
      * destruct (key_match k q) eqn:Eq; [|done]. exfalso.
        rewrite key_match_sym in Eq'. pose proof (key_match_trans _ _ _ Eq Eq') as Hkk.
        rewrite key_match_sym in Hkk. congruence.
      * exact IH.
Qed.

Lemma find_app {A} (f : A -> bool) (l1 l2 : list A) :
  List.find f (l1 ++ l2) = match List.find f l1 with Some x => Some x | None => List.find f l2 end.
Proof. induction l1 as [|x l1 IH]; simpl; [done|]. by destruct (f x). Qed.

Lemma find_none_iff {A} (f : A -> bool) (l : list A) :
  List.find f l = None <-> forall x, x ∈ l -> f x = false.
Proof.
  induction l as [|x l IH]; simpl.
  - split; [intros _ y ?%elem_of_nil; done|done].
  - destruct (f x) eqn:E; split.
    + done.
    + intros H'. rewrite (H' x) in E; [done|]. left.
    + intros Hn y Hy. apply elem_of_cons in Hy as [->|Hy]; [done|]. by apply IH.
    + intros H' . apply IH. intros y Hy. apply H'. by right.
Qed.

(** [update_relations]: the last pair of the list equal to the key decides. *)
Lemma update_relations_find pairs l q :
  rel_find (fold_left (fun acc p => relations_insert acc p.1 p.2) pairs l) q =
  match List.find (fun p => key_match p.1 q) (rev pairs) with
  | Some p => Some p.2
  | None => rel_find l q
  end.
Proof.
  revert l. induction pairs as [|a pairs IH]; intros l; simpl; [done|].
  rewrite IH, find_app. simpl. rewrite relations_insert_find.
  destruct (List.find _ (rev pairs)); [done|]. by destruct (key_match a.1 q).
Qed.

Lemma CreateTeam_verify_relations_ok (e : Entities) (id : TeamId) (rs : list (TeamId * Relation)) :
  CreateTeam_verify_relations e id rs = Ok <->
  forall tid rel, (tid, rel) ∈ rs -> tid <> id /\ rel <> Kin /\ is_Some (team e tid).
Proof.
  induction rs as [|[tid rel] rs IH]; simpl.
  - split; [intros _ ? ? ?%elem_of_nil; done|done].
  - destruct (decide (tid = id)) as [->|Hne1].
    { split; [done|]. intros H'. exfalso. by destruct (H' id rel) as [? _]; [left|]. }
    destruct (decide (rel = Kin)) as [->|Hne2].
    { split; [done|]. intros H'. exfalso. by destruct (H' tid Kin) as [_ [? _]]; [left|]. }
    destruct (team e tid) eqn:Et.
    + rewrite IH. split.
      * intros H' t' r' Hin. apply elem_of_cons in Hin as [Heq|Hin].
        -- injection Heq as -> ->. repeat split; [done|done|by eexists].
        -- by apply H'.
      * intros H' t' r' Hin. apply H'. by right.
    + split; [done|]. intros H'. exfalso.
      destruct (H' tid rel) as [_ [_ Hs]]; [left|]. rewrite Et in Hs. by destruct Hs.
Qed.

Lemma find_ext {A} (f g : A -> bool) (l : list A) :
  (forall x, f x = g x) -> List.find f l = List.find g l.
Proof. intros Hfg. induction l as [|x l IH]; simpl; [done|]. by rewrite Hfg, IH. Qed.

Lemma find_some_elem {A} (f : A -> bool) (l : list A) x :
  x ∈ l -> f x = true -> exists y, List.find f l = Some y.
Proof.
  intros Hx Hf. destruct (List.find f l) as [y|] eqn:E; [by exists y|].
  rewrite (proj1 (find_none_iff f l) E x Hx) in Hf. done.
Qed.

Lemma elem_of_rev {A} (l : list A) x : x ∈ rev l <-> x ∈ l.
Proof. rewrite !list_elem_of_In. pose proof (in_rev l x). tauto. Qed.

(** Under totally ordered ids, [Entities::relation] answers the same in both
    directions. *)
Lemma relation_sym_total (Htot : ids_totally_ordered) (e : Entities) (t1 t2 : TeamId) :
  relation e t1 t2 = relation e t2 t1.
Proof.
  unfold relation, rel_find. destruct (decide (t1 = t2)) as [->|Hne].
  - by rewrite decide_True.
  - rewrite decide_False by congruence. f_equal. apply find_ext.
    intros [[a c] v]. simpl. rewrite !(key_match_total Htot).
    apply Bool.eq_true_iff_eq. rewrite !rp_eq_spec. simpl. naive_solver.
Qed.

Lemma CreateTeam_apply_relations r b id rels seed :
  relations (entities (CreateTeam_apply r b id rels seed)) =
  fold_left (fun acc p => relations_insert acc p.1 p.2)
    (map (fun e => (RelationshipPair_new id e.1, e.2)) (default [] rels) ++
     map (fun t => (RelationshipPair_new id t, Enemy))
       (CreateTeam_unlisted
          (add_team (entities b) (mkTeam id [] None (generate_objectives r seed))).1 id rels))
    (relations (entities b)).
Proof.
  unfold CreateTeam_apply, add_team. simpl.
  destruct (teams (entities b) !! id); destruct rels; reflexivity.
Qed.

(** X12: after a verified [CreateTeam], [relation(id, other)] is the listed
    relation for every team of the explicit list (the last entry for a team
    decides), and [Enemy] for every pre-existing team the list does not name;
    when team ids are totally ordered, [relation(other, id)] agrees. *)
Theorem CreateTeam_relations (r : BattleRules) (b : Battle) (id : TeamId)
    (rels : option (list (TeamId * Relation))) (seed : option ObjectivesSeed) :
  keyed team_id (teams (entities b)) ->
  CreateTeam_verify b id rels = Ok ->
  let e' := entities (CreateTeam_apply r b id rels seed) in
  (forall pre other rel post, default [] rels = pre ++ (other, rel) :: post ->
     other ∉ map fst post ->
     relation e' id other = Some rel /\
     (ids_totally_ordered -> relation e' other id = Some rel)) /\
  (forall other, is_Some (team (entities b) other) -> other ∉ map fst (default [] rels) ->
     relation e' id other = Some Enemy /\
     (ids_totally_ordered -> relation e' other id = Some Enemy)).
Proof.
  intros Hkeyed Hver e'.
  unfold CreateTeam_verify in Hver.
  destruct (team (entities b) id) eqn:Hid; [discriminate|].
  assert (Hrs : forall tid rel, (tid, rel) ∈ default [] rels ->
            tid <> id /\ rel <> Kin /\ is_Some (team (entities b) tid)).
  { destruct rels as [rs|]; simpl.
    - by apply CreateTeam_verify_relations_ok.
    - intros ? ? ?%elem_of_nil; done. }
  set (unl := CreateTeam_unlisted
                (add_team (entities b) (mkTeam id [] None (generate_objectives r seed))).1 id rels).
  assert (Hrel : forall other, other <> id ->
            relation e' id other =
            match List.find (fun p => key_match p.1 (RelationshipPair_new id other))
                    (rev (map (fun t => (RelationshipPair_new id t, Enemy)) unl)
                     ++ rev (map (fun e => (RelationshipPair_new id e.1, e.2)) (default [] rels)))
            with
            | Some p => Some p.2
            | None => rel_find (relations (entities b)) (RelationshipPair_new id other)
            end).
  { intros other Hne. unfold relation. rewrite decide_False by congruence.
    subst e'. by rewrite CreateTeam_apply_relations, update_relations_find, rev_app_distr. }
  assert (Hunl : forall t, t ∈ unl -> t <> id /\ t ∉ map fst (default [] rels)).
  { intros t Ht. unfold unl, CreateTeam_unlisted in Ht.
    apply elem_of_list_filter_bool in Ht as [Hp _].
    apply andb_true_iff in Hp as [Hp1 Hp2]. split.
    - intros ->. by rewrite bool_decide_true in Hp1.
    - apply (find_key_none fst).
      destruct (List.find (fun e => bool_decide (e.1 = t)) (default [] rels)); done. }
  split.
  - intros pre other rel post Hsplit Hpost.
    assert (Hin : (other, rel) ∈ default [] rels).
    { rewrite Hsplit. apply elem_of_app. right. left. }
    destruct (Hrs _ _ Hin) as (Hne & _ & _).
    assert (Hr : relation e' id other = Some rel).
    { rewrite (Hrel other Hne), find_app.
      rewrite (proj2 (find_none_iff _ _)).
      2:{ intros x Hx. apply elem_of_rev, elem_of_list_map in Hx as (t & -> & Ht). simpl.
          destruct (key_match _ _) eqn:E; [|done].
          apply key_match_rp_eq, rp_eq_same_first in E; [|congruence].
          subst t. apply Hunl in Ht as [_ Ht]. exfalso. apply Ht.
          rewrite Hsplit, map_app. apply elem_of_app. right. left. }
      rewrite Hsplit, map_app, rev_app_distr. simpl map. simpl rev.
      rewrite <- app_assoc, find_app.
      rewrite (proj2 (find_none_iff _ _)).
      2:{ intros x Hx. apply elem_of_rev, elem_of_list_map in Hx as ([t v] & -> & Ht). simpl.
          destruct (key_match _ _) eqn:E; [|done].
          apply key_match_rp_eq, rp_eq_same_first in E; [|congruence].
          subst t. exfalso. apply Hpost. apply elem_of_list_map. by exists (other, v). }
      simpl. by rewrite key_match_refl. }
    split; [done|]. intros Htot. by rewrite (relation_sym_total Htot).
  - intros other [t Ht] Hnot.
    assert (Hne : other <> id) by (intros ->; congruence).
    assert (Hu : other ∈ unl).
    { unfold unl, CreateTeam_unlisted. apply elem_of_list_filter_bool. split.
      - apply andb_true_iff. split.
        + by rewrite bool_decide_false.
        + apply (proj2 (find_key_none fst _ _)) in Hnot. by rewrite Hnot.
      - apply elem_of_list_map. exists t. split.
        + symmetry. unfold team in Ht. exact (map_Forall_lookup_1 _ _ _ _ Hkeyed Ht).
        + apply elem_of_list_map. exists (other, t). split; [done|].
          apply elem_of_map_to_list. unfold add_team. unfold team in Hid. simpl. rewrite Hid.
          simpl. rewrite lookup_insert_ne; [exact Ht|congruence]. }
    assert (Hr : relation e' id other = Some Enemy).
    { rewrite (Hrel other Hne), find_app.
      destruct (find_some_elem (fun p => key_match p.1 (RelationshipPair_new id other))
                  (rev (map (fun t => (RelationshipPair_new id t, Enemy)) unl))
                  (RelationshipPair_new id other, Enemy)) as [y Hy].
      { apply elem_of_rev, elem_of_list_map. by exists other. }
      { apply key_match_refl. }
      rewrite Hy. apply find_some in Hy as [Hy _].
      apply list_elem_of_In, elem_of_rev, elem_of_list_map in Hy as (t' & -> & _). done. }
    split; [done|]. intros Htot. by rewrite (relation_sym_total Htot).
Qed.

(** C3: an event whose verification fails is answered with that error and
    changes nothing: on the server-origin path the battle is returned as it
    was, with the verification error; on the client-origin path and on
    [Client::receive] the server and the client are returned as they were,
    with an error. *)
Theorem verify_error_no_mutation (r : BattleRules) (b : Battle) (ev : Event) (err : WeaselError) :
  verify_event b ev = Err err ->
  (forall fuel, process_server r fuel b ev = Some (b, Err err)) /\
  (forall fuel srv p, server_battle srv = b -> proto_event p = ev ->
     exists err', process_client r fuel srv p = Some (srv, Err err')) /\
  (forall c w, client_battle c = b -> payload w = ev ->
     exists err', client_receive r c w = Some (c, Err err')).
Proof.
  intros Hv.
  assert (Hs : forall fuel, process_server r fuel b ev = Some (b, Err err)).
  { intros fuel. destruct fuel; cbn [process_server]; by rewrite Hv. }
  split; [exact Hs|split].
  - intros fuel srv p Hb He. unfold process_client.
    destruct (negb _); [by eexists|].
    destruct (server_only _); [by eexists|].
    destruct (check_rights srv p); [|by eexists].
    rewrite Hb, He, Hs. simpl. destruct srv as [sb sa]. simpl in Hb. subst sb. by eexists.
  - intros c w Hb He. unfold client_receive. cbv zeta.
    destruct (negb _); [by eexists|].
    destruct (negb _); [by eexists|].
    rewrite Hb, He, Hv. by eexists.
Qed.

Lemma CreateTeam_verify_fresh (b : Battle) (id : TeamId) (rels : option (list (TeamId * Relation))) :
  team (entities b) id = None ->
  CreateTeam_verify b id rels = CreateTeam_verify_relations (entities b) id (default [] rels).
Proof. intros Hid. unfold CreateTeam_verify. rewrite Hid. by destruct rels. Qed.

Lemma CreateTeam_verify_relations_skip (e : Entities) (id : TeamId) (pre l : list (TeamId * Relation)) :
  (forall t r', (t, r') ∈ pre -> t <> id /\ r' <> Kin /\ is_Some (team e t)) ->
  CreateTeam_verify_relations e id (pre ++ l) = CreateTeam_verify_relations e id l.
Proof.
  induction pre as [|[t r'] pre IH]; intros Hpre; simpl; [done|].
  destruct (Hpre t r') as (Hn1 & Hn2 & [x Hx]); [left|].
  rewrite decide_False, decide_False, Hx by done. apply IH.
  intros t' r'' Hin. apply Hpre. by right.
Qed.

Lemma SetRelations_verify_list_skip (e : Entities) (pre l : list (TeamId * TeamId * Relation)) :
  (forall u1 u2 r', (u1, u2, r') ∈ pre ->
     u1 <> u2 /\ r' <> Kin /\ is_Some (team e u1) /\ is_Some (team e u2)) ->
  SetRelations_verify_list e (pre ++ l) = SetRelations_verify_list e l.
Proof.
  induction pre as [|[[u1 u2] r'] pre IH]; intros Hpre; simpl; [done|].
  destruct (Hpre u1 u2 r') as (Hn1 & Hn2 & [x Hx] & [y Hy]); [left|].
  rewrite decide_False, decide_False, Hx, Hy by done. apply IH.
  intros v1 v2 r'' Hin. apply Hpre. by right.
Qed.

Lemma SetRelations_verify_list_ok (e : Entities) (rs : list (TeamId * TeamId * Relation)) :
  SetRelations_verify_list e rs = Ok <->
  forall u1 u2 r', (u1, u2, r') ∈ rs ->
    u1 <> u2 /\ r' <> Kin /\ is_Some (team e u1) /\ is_Some (team e u2).
Proof.
  induction rs as [|[[u1 u2] rel] rs IH]; simpl.
  - split; [intros _ ? ? ? ?%elem_of_nil; done|done].
  - destruct (decide (u1 = u2)) as [->|Hne1].
    { split; [done|]. intros H'. exfalso. by destruct (H' u2 u2 rel) as [? _]; [left|]. }
    destruct (decide (rel = Kin)) as [->|Hne2].
    { split; [done|]. intros H'. exfalso. by destruct (H' u1 u2 Kin) as [_ [? _]]; [left|]. }
    destruct (team e u1) eqn:E1.
    2:{ split; [done|]. intros H'. exfalso.
        destruct (H' u1 u2 rel) as (_ & _ & Hs & _); [left|]. rewrite E1 in Hs. by destruct Hs. }
    destruct (team e u2) eqn:E2.
    2:{ split; [done|]. intros H'. exfalso.
        destruct (H' u1 u2 rel) as (_ & _ & _ & Hs); [left|]. rewrite E2 in Hs. by destruct Hs. }
    rewrite IH. split.
    + intros H' v1 v2 r' Hin. apply elem_of_cons in Hin as [Heq|Hin].
      * injection Heq as -> -> ->. repeat split; [done|done|by eexists|by eexists].
      * by apply H'.
    + intros H' v1 v2 r' Hin. apply H'. by right.
Qed.

(** C4 (amended): the checks of [CreateTeam] and [SetRelations] run in order
    and the first failing one decides the error.  [CreateTeam] first rejects a
    duplicated id; then the entries are checked in list order, and the first
    entry that fails any check gives [SelfRelation] if it names the new team,
    otherwise [KinshipRelation] if its relation is [Kin], otherwise
    [TeamNotFound] of its team.  [SetRelations] checks each entry in list order
    for [SelfRelation], [KinshipRelation], [TeamNotFound] of its first team and
    [TeamNotFound] of its second team.  Verification succeeds exactly when no
    check fails. *)
Theorem verify_relations_first_failure (b : Battle) (id : TeamId)
    (rels : option (list (TeamId * Relation))) (rs : list (TeamId * TeamId * Relation)) :
  (is_Some (team (entities b) id) -> CreateTeam_verify b id rels = Err (DuplicatedTeam id)) /\
  (team (entities b) id = None ->
   forall pre other rel post, default [] rels = pre ++ (other, rel) :: post ->
   (forall t r', (t, r') ∈ pre -> t <> id /\ r' <> Kin /\ is_Some (team (entities b) t)) ->
   (other = id -> CreateTeam_verify b id rels = Err SelfRelation) /\
   (other <> id -> rel = Kin -> CreateTeam_verify b id rels = Err KinshipRelation) /\
   (other <> id -> rel <> Kin -> team (entities b) other = None ->
      CreateTeam_verify b id rels = Err (TeamNotFound other))) /\
  (CreateTeam_verify b id rels = Ok <->
   team (entities b) id = None /\
   forall t r', (t, r') ∈ default [] rels -> t <> id /\ r' <> Kin /\ is_Some (team (entities b) t)) /\
  (forall pre t1 t2 rel post, rs = pre ++ (t1, t2, rel) :: post ->
   (forall u1 u2 r', (u1, u2, r') ∈ pre ->
      u1 <> u2 /\ r' <> Kin /\ is_Some (team (entities b) u1) /\ is_Some (team (entities b) u2)) ->
   (t1 = t2 -> SetRelations_verify b rs = Err SelfRelation) /\
   (t1 <> t2 -> rel = Kin -> SetRelations_verify b rs = Err KinshipRelation) /\
   (t1 <> t2 -> rel <> Kin -> team (entities b) t1 = None ->
      SetRelations_verify b rs = Err (TeamNotFound t1)) /\
   (t1 <> t2 -> rel <> Kin -> is_Some (team (entities b) t1) -> team (entities b) t2 = None ->
      SetRelations_verify b rs = Err (TeamNotFound t2))) /\
  (SetRelations_verify b rs = Ok <->
   forall u1 u2 r', (u1, u2, r') ∈ rs ->
     u1 <> u2 /\ r' <> Kin /\ is_Some (team (entities b) u1) /\ is_Some (team (entities b) u2)).
Proof.
  split; [|split; [|split; [|split]]].
  - intros [t Ht]. unfold CreateTeam_verify. by rewrite Ht.
  - intros Hid pre other rel post Hsplit Hpre.
    rewrite (CreateTeam_verify_fresh _ _ _ Hid), Hsplit, CreateTeam_verify_relations_skip by done.
    simpl. repeat split.
    + intros ->. by rewrite decide_True.
    + intros Hne ->. by rewrite decide_False, decide_True.
    + intros Hne Hk Ht. by rewrite decide_False, decide_False, Ht.
  - split.
    + intros Hv. destruct (team (entities b) id) eqn:Hid.
      { unfold CreateTeam_verify in Hv. by rewrite Hid in Hv. }
      rewrite (CreateTeam_verify_fresh _ _ _ Hid) in Hv. split; [done|].
      by apply CreateTeam_verify_relations_ok.
    + intros [Hid Hall]. rewrite (CreateTeam_verify_fresh _ _ _ Hid).
      by apply CreateTeam_verify_relations_ok.
  - intros pre t1 t2 rel post Hsplit Hpre. unfold SetRelations_verify.
    rewrite Hsplit, SetRelations_verify_list_skip by done. simpl. repeat split.
    + intros ->. by rewrite decide_True.
    + intros Hne ->. by rewrite decide_False, decide_True.
    + intros Hne Hk Ht. by rewrite decide_False, decide_False, Ht.
    + intros Hne Hk [x Hx] Ht. by rewrite decide_False, decide_False, Hx, Ht.
  - apply SetRelations_verify_list_ok.
Qed.

(** C6: [RemoveTeam] is rejected with [TeamNotFound] for a missing team and
    with [TeamNotEmpty] for a team that still has members; once verified, its
    application removes the team from the store and its entry from the rights,
    and leaves every other team and rights entry as it was. *)
Theorem RemoveTeam_removes (b : Battle) (id : TeamId) :
  (team (entities b) id = None -> verify_event b (RemoveTeam id) = Err (TeamNotFound id)) /\
  (forall t, team (entities b) id = Some t -> team_creatures t <> [] ->
     verify_event b (RemoveTeam id) = Err (TeamNotEmpty id)) /\
  (verify_event b (RemoveTeam id) = Ok ->
   exists b', RemoveTeam_apply b id = Some b' /\
     team (entities b') id = None /\ rights b' !! id = None /\
     (forall o, o <> id -> team (entities b') o = team (entities b) o) /\
     (forall o, o <> id -> rights b' !! o = rights b !! o)).
Proof.
  unfold verify_event, RemoveTeam_verify. split; [|split].
  - intros Hn. by rewrite Hn.
  - intros t Ht Hne. rewrite Ht. by destruct (team_creatures t).
  - intros Hv. destruct (team (entities b) id) as [t|] eqn:Ht; [|done].
    unfold RemoveTeam_apply, remove_team. unfold team in Ht. rewrite Ht.
    eexists. split; [reflexivity|].
    unfold team, rights_remove_team. cbn [set_rights set_entities set_teams entities teams rights].
    split; [apply lookup_delete_eq|]. split; [apply lookup_delete_eq|].
    split; intros o Ho; by rewrite lookup_delete_ne by congruence.
Qed.

(** C9: [ApplyImpact] always passes verification, whatever the impact and the
    battle; when the fight rules enqueue nothing for it, processing it
    succeeds. *)
Theorem ApplyImpact_never_rejected (b : Battle) (impact : Impact) :
  verify_event b (ApplyImpact impact) = Ok /\
  (forall r fuel, (apply_impact r b impact (entropy b)).1 = [] ->
     exists b', process_server r fuel b (ApplyImpact impact) = Some (b', Ok)).
Proof.
  split; [reflexivity|].
  intros r fuel Hq.
  destruct fuel; cbn [process_server verify_event ApplyImpact_verify apply_event];
    unfold ApplyImpact_apply; destruct (apply_impact r b impact (entropy b)) as [q en];
    simpl in Hq; subst q; by eexists.
Qed.

(** C10: on an existing team, [ResetObjectives] passes verification; its
    application gives the team the objectives generated from the seed and
    resets its conclusion to [None], keeping its id and members, and changes
    nothing else. *)
Theorem ResetObjectives_resets (r : BattleRules) (b : Battle) (id : TeamId)
    (seed : option ObjectivesSeed) (t : Team) :
  team (entities b) id = Some t ->
  verify_event b (ResetObjectives id seed) = Ok /\
  exists b', ResetObjectives_apply r b id seed = Some b' /\
    team (entities b') id =
      Some (mkTeam (team_id t) (team_creatures t) None (generate_objectives r seed)) /\
    (forall o, o <> id -> team (entities b') o = team (entities b) o) /\
    creatures (entities b') = creatures (entities b) /\
    relations (entities b') = relations (entities b) /\
    rounds b' = rounds b /\ rights b' = rights b /\
    history b' = history b /\ entropy b' = entropy b.
Proof.
  intros Ht. split.
  { unfold verify_event, verify_team_exists. by rewrite Ht. }
  unfold ResetObjectives_apply, update_team. unfold team in Ht. rewrite Ht.
  eexists. split; [reflexivity|].
  unfold team. cbn [set_entities set_teams entities teams creatures relations rounds rights
                    history entropy].
  split; [apply lookup_insert_eq|].
  split; [intros o Ho; by rewrite lookup_insert_ne by congruence|].
  done.
Qed.

Lemma remove_first_not_in (x : CreatureId) (l l' : list CreatureId) :
  NoDup l -> remove_first x l = Some l' -> x ∉ l'.
Proof.
  revert l'. induction l as [|y l IH]; intros l' Hnd Hr; simpl in Hr; [done|].
  inversion Hnd as [|? ? Hy Hnd0]; subst.
  destruct (decide (y = x)) as [->|Hne].
  - by injection Hr as <-.
  - destruct (remove_first x l) as [l''|] eqn:E; [|done].
    simpl in Hr. injection Hr as <-. rewrite elem_of_cons. intros [->|Hin]; [done|].
    by apply (IH l'' Hnd0).
Qed.

(** An [EndRound] on a started round closes it. *)
Lemma process_EndRound (r : BattleRules) (fuel : nat) (b : Battle) (e : EntityId) :
  rounds b = Started e ->
  process_server r fuel b EndRound = Some (push_history (set_rounds b Ready) EndRound, Ok).
Proof. intros Hr. destruct fuel; cbn; unfold EndRound_verify; by rewrite Hr. Qed.

(** Removing the acting creature, with its follow-up [EndRound]. *)
Lemma process_RemoveCreature_acting (r : BattleRules) (fuel : nat) (b b' : Battle)
    (c : CreatureId) (cr : Creature) (tm : Team) (res : WeaselResult) :
  rounds b = Started (EntityId_Creature c) ->
  creatures (entities b) !! c = Some cr ->
  teams (entities b) !! creature_team_id cr = Some tm ->
  NoDup (team_creatures tm) ->
  process_server r fuel b (RemoveCreature c) = Some (b', res) ->
  creatures (entities b') !! c = None /\
  (forall t, teams (entities b') !! creature_team_id cr = Some t -> c ∉ team_creatures t) /\
  rounds b' = Ready /\ res = Ok.
Proof.
  intros Hr Hc Ht Hnd Hp.
  destruct fuel as [|n]; cbn [process_server] in Hp;
    unfold verify_event, RemoveCreature_verify, creature in Hp; rewrite Hc in Hp;
    unfold apply_event, RemoveCreature_apply, remove_creature in Hp; rewrite Hc, Ht in Hp;
    unfold Team_remove_creature in Hp;
    destruct (remove_first c (team_creatures tm)) as [l'|] eqn:Er; simpl in Hp; try done.
  all: rewrite Hr, decide_True in Hp by done; try discriminate.
  rewrite (process_EndRound _ _ _ (EntityId_Creature c)) in Hp by done.
  injection Hp as <- <-. cbn. split; [apply lookup_delete_eq|]. split; [|done].
  intros t Hl. rewrite lookup_insert_eq in Hl. injection Hl as <-. simpl.
  by apply (remove_first_not_in c (team_creatures tm)).
Qed.

(** C7: when the round is started on a creature and an event removes that
    creature ([RemoveCreature], or [AlterStatistics] whose character rule
    answers [REMOVAL]), then once the event has been processed (with its
    follow-ups) the creature is gone from the store and from its team's
    members, the round is [Ready], and the processing succeeded. *)
Theorem remove_acting_creature_ends_round (r : BattleRules) (fuel : nat) (b b' : Battle)
    (c : CreatureId) (cr : Creature) (tm : Team) (ev : Event) (res : WeaselResult) :
  rounds b = Started (EntityId_Creature c) ->
  creatures (entities b) !! c = Some cr ->
  teams (entities b) !! creature_team_id cr = Some tm ->
  NoDup (team_creatures tm) ->
  (ev = RemoveCreature c \/
   exists alt, ev = AlterStatistics (EntityId_Creature c) alt /\
     (character_alter r (statistics cr) alt (entropy b)).1.2 = Some REMOVAL) ->
  process_server r fuel b ev = Some (b', res) ->
  creatures (entities b') !! c = None /\
  (forall t, teams (entities b') !! creature_team_id cr = Some t -> c ∉ team_creatures t) /\
  rounds b' = Ready /\ res = Ok.
Proof.
  intros Hr Hc Ht Hnd Hev Hp.
  destruct Hev as [->|(alt & -> & Halt)].
  { by apply (process_RemoveCreature_acting r fuel b b' c cr tm res). }
  destruct fuel as [|n]; cbn [process_server] in Hp;
    unfold verify_event, verify_is_character, entity, creature in Hp; rewrite Hc in Hp;
    unfold apply_event, AlterStatistics_apply in Hp; rewrite Hc in Hp;
    destruct (character_alter r (statistics cr) alt (entropy b)) as [[stats tr] en];
    simpl in Halt; subst tr; simpl in Hp; [discriminate|].
  destruct (process_server r n _ (RemoveCreature c)) as [[b1 res1]|] eqn:Ei; [|done].
  apply (process_RemoveCreature_acting r n _ b1 c (set_statistics cr stats) tm res1) in Ei;
    cbn [push_history set_entropy update_creature set_entities set_creatures set_statistics
         entities creatures teams rounds creature_team_id] in *;
    [|done|by rewrite lookup_insert_eq|done|done].
  destruct Ei as (E1 & E2 & E3 & ->). injection Hp as <- <-. done.
Qed.

(** C8: a client receiving an event stamped with another rules version
    answers [IncompatibleVersions] (its own version, then the remote one) and
    stays as it was, so its history is unchanged; firing from a client whose
    rules version differs from the server's fails with [IncompatibleVersions]
    (the client's version, then the server's) and leaves the server as it
    was. *)
Theorem version_mismatch_rejected (rc rs : BattleRules) (fuel : nat) (c : Client) (srv : Server)
    (w : VersionedEventWrapper) (ev : Event) :
  (rules_version w <> version rc ->
   client_receive rc c w = Some (c, Err (IncompatibleVersions (version rc) (rules_version w)))) /\
  (version rc <> version rs ->
   client_fire rc rs fuel c srv ev =
     Some (srv, Err (IncompatibleVersions (version rc) (version rs)))).
Proof.
  split; intros Hne.
  - unfold client_receive. cbv zeta. by rewrite bool_decide_false.
  - unfold client_fire, process_client. simpl. by rewrite bool_decide_false.
Qed.

(** ** Further properties of the code *)

Lemma remove_first_none (x : CreatureId) (l : list CreatureId) :
  remove_first x l = None <-> x ∉ l.
Proof.
  induction l as [|y l IH]; simpl.
  - split; [intros _; apply not_elem_of_nil|done].
  - rewrite elem_of_cons. destruct (decide (y = x)) as [->|Hne].
    + split; [done|]. intros Hn. exfalso. by apply Hn; left.
    + destruct (remove_first x l) eqn:E; simpl.
      * split; [done|]. intros Hn. exfalso. apply Hn. right.
        destruct (decide (x ∈ l)) as [Hin|Hnin]; [done|]. apply IH in Hnin. discriminate.
      * split; [|done]. intros _ [->|Hin]; [done|]. revert Hin. by apply IH.
Qed.

Lemma remove_first_some (x : CreatureId) (l l' : list CreatureId) :
  remove_first x l = Some l' ->
  exists pre post, l = pre ++ (x :: post) /\ (x ∉ pre) /\ l' = pre ++ post.
Proof.
  revert l'. induction l as [|y l IH]; intros l' Hr; simpl in Hr; [done|].
  destruct (decide (y = x)) as [->|Hne].
  - injection Hr as <-. exists [], l. split; [done|]. split; [apply not_elem_of_nil|done].
  - destruct (remove_first x l) as [l''|] eqn:E; [|done].
    simpl in Hr. injection Hr as <-.
    destruct (IH l'' eq_refl) as (pre & post & -> & Hpre & ->).
    exists (y :: pre), post. split; [done|]. split; [|done].
    rewrite elem_of_cons. intros [->|Hin]; [done|]. by apply Hpre.
Qed.

(** X1: [Team::remove_creature] fails (the panic) exactly when the creature is
    not a member; otherwise it removes the first occurrence of the creature and
    nothing else, keeping the other members in order and the team's id,
    conclusion and objectives. *)
Theorem Team_remove_creature_first (t : Team) (c : CreatureId) :
  (Team_remove_creature t c = None <-> c ∉ team_creatures t) /\
  (forall t', Team_remove_creature t c = Some t' ->
     team_id t' = team_id t /\ conclusion t' = conclusion t /\ objectives t' = objectives t /\
     exists pre post, team_creatures t = pre ++ (c :: post) /\ (c ∉ pre) /\
       team_creatures t' = pre ++ post).
Proof.
  unfold Team_remove_creature. split.
  - rewrite <- remove_first_none. by destruct (remove_first c (team_creatures t)).
  - intros t' Ht'. destruct (remove_first c (team_creatures t)) as [l'|] eqn:E; [|done].
    simpl in Ht'. injection Ht' as <-. simpl. split; [done|]. split; [done|]. split; [done|].
    by apply remove_first_some.
Qed.

(** X2: equality of relationship keys is an equivalence, as [Eq] requires. *)
Theorem rp_eq_equivalence :
  Equivalence (fun p q : RelationshipPair TeamId => rp_eq p q = true).
Proof.
  split.
  - intros p. apply rp_eq_refl.
  - intros p q Hpq. by rewrite rp_eq_sym.
  - intros p q s. apply rp_eq_trans.
Qed.

(** X3: two relationship keys are equal exactly when they hold the same two
    teams, in either order: their [values] are permutations of each other. *)
Theorem rp_eq_values (p q : RelationshipPair TeamId) :
  rp_eq p q = true <-> values p ≡ₚ values q.
Proof.
  destruct p as [a c], q as [a' c']. rewrite rp_eq_spec. unfold values. simpl. split.
  - intros [[-> ->]|[-> ->]]; [done|]. apply Permutation_swap.
  - intros Hp. apply Permutation_length_2 in Hp. naive_solver.
Qed.

Lemma find_map {A B} (f : B -> bool) (g : A -> B) (l : list A) :
  List.find f (map g l) = g <$> List.find (fun x => f (g x)) l.
Proof. induction l as [|x l IH]; simpl; [done|]. by destruct (f (g x)). Qed.

(** X4: when team ids are totally ordered, [SetRelations::apply] decides the
    relation of two distinct teams by the last entry naming them (in either
    order); a pair no entry names keeps its relation, and the teams and
    creatures are left as they were. *)
Theorem SetRelations_apply_relation (b : Battle) (rs : list (TeamId * TeamId * Relation))
    (t1 t2 : TeamId) :
  ids_totally_ordered -> t1 <> t2 ->
  relation (entities (SetRelations_apply b rs)) t1 t2 =
    match List.find (fun e => rp_eq (RelationshipPair_new e.1.1 e.1.2)
                                    (RelationshipPair_new t1 t2)) (rev rs) with
    | Some e => Some e.2
    | None => relation (entities b) t1 t2
    end /\
  teams (entities (SetRelations_apply b rs)) = teams (entities b) /\
  creatures (entities (SetRelations_apply b rs)) = creatures (entities b).
Proof.
  intros Htot Hne. split; [|done].
  unfold relation. rewrite !decide_False by done.
  unfold SetRelations_apply. cbn [set_entities entities update_relations relations].
  rewrite update_relations_find, <- map_rev, find_map. simpl.
  rewrite (find_ext _ (fun e => rp_eq (RelationshipPair_new e.1.1 e.1.2)
                                     (RelationshipPair_new t1 t2)));
    [|intros x; apply (key_match_total Htot)].
  by destruct (List.find _ (rev rs)).
Qed.

(** [CreateTeam::apply] on a fresh id inserts the team and keeps the
    creatures. *)
Lemma CreateTeam_apply_fresh (r : BattleRules) (b : Battle) (id : TeamId)
    (rels : option (list (TeamId * Relation))) (seed : option ObjectivesSeed) :
  team (entities b) id = None ->
  teams (entities (CreateTeam_apply r b id rels seed))
    = <[id := mkTeam id [] None (generate_objectives r seed)]> (teams (entities b)) /\
  creatures (entities (CreateTeam_apply r b id rels seed)) = creatures (entities b).
Proof.
  unfold team. intros Hn. unfold CreateTeam_apply, add_team. simpl. rewrite Hn.
  by destruct rels.
Qed.

(** X5: on a fresh id, [CreateTeam::apply] stores the new team with no members, no
    conclusion and the objectives generated from the seed; the other teams, the
    creatures and the relations between other teams are left as they were, the
    team store stays keyed by team id, and a second [CreateTeam] with the same
    id is rejected with [DuplicatedTeam]. *)
Theorem CreateTeam_apply_store (r : BattleRules) (b : Battle) (id : TeamId)
    (rels : option (list (TeamId * Relation))) (seed : option ObjectivesSeed) :
  keyed team_id (teams (entities b)) -> team (entities b) id = None ->
  let b' := CreateTeam_apply r b id rels seed in
  team (entities b') id = Some (mkTeam id [] None (generate_objectives r seed)) /\
  (forall o, o <> id -> team (entities b') o = team (entities b) o) /\
  creatures (entities b') = creatures (entities b) /\
  keyed team_id (teams (entities b')) /\
  (forall t1 t2, t1 <> id -> t2 <> id -> relation (entities b') t1 t2 = relation (entities b) t1 t2) /\
  (forall rels', CreateTeam_verify b' id rels' = Err (DuplicatedTeam id)).
Proof.
  intros Hkeyed Hfresh b'.
  destruct (CreateTeam_apply_fresh r b id rels seed Hfresh) as [Hteams Hcr].
  fold b' in Hteams, Hcr.
  assert (Hid : team (entities b') id = Some (mkTeam id [] None (generate_objectives r seed))).
  { unfold team. rewrite Hteams. apply lookup_insert_eq. }
  split; [exact Hid|split; [|split; [|split; [|split]]]].
  - intros o Ho. unfold team. rewrite Hteams. by apply lookup_insert_ne.
  - exact Hcr.
  - rewrite Hteams. by apply map_Forall_insert_2.
  - intros t1 t2 Ht1 Ht2. unfold relation. destruct (decide (t1 = t2)); [done|].
    subst b'. rewrite CreateTeam_apply_relations, update_relations_find.
    rewrite (proj2 (find_none_iff _ _)); [done|].
    intros x Hx. apply elem_of_rev, elem_of_app in Hx.
    destruct (key_match x.1 (RelationshipPair_new t1 t2)) eqn:E; [|done]. exfalso.
    apply key_match_rp_eq in E.
    destruct Hx as [Hx|Hx]; apply elem_of_list_map in Hx as (y & -> & _);
      apply rp_eq_spec in E; simpl in E; naive_solver.
  - intros rels'. unfold CreateTeam_verify. by rewrite Hid.
Qed.

(** The regeneration policy keeps a map keyed by the ids of its values. *)
Lemma regenerate_keyed {K V} `{Countable K} (key : V -> K) (m : gmap K V) (gen : list V) :
  keyed key m -> keyed key (regenerate key m gen).
Proof.
  intros Hk k v Hl. rewrite (regenerate_lookup key m gen k Hk) in Hl.
  case_bool_decide; [|done].
  destruct (m !! k) eqn:E.
  - injection Hl as <-. exact (map_Forall_lookup_1 _ _ _ _ Hk E).
  - apply find_some in Hl as [_ Hl]. by apply bool_decide_eq_true in Hl.
Qed.

(** X8: the regeneration of [RegenerateAbilities::apply] keeps the abilities
    keyed by their ids, and regenerating again from the same generated list
    changes nothing. *)
Theorem regenerate_idempotent {K V} `{Countable K} (key : V -> K) (m : gmap K V) (gen : list V) :
  keyed key m ->
  keyed key (regenerate key m gen) /\
  regenerate key (regenerate key m gen) gen = regenerate key m gen.
Proof.
  intros Hk. pose proof (regenerate_keyed key m gen Hk) as Hk'. split; [exact Hk'|].
  apply map_eq. intros k.
  rewrite (regenerate_lookup key (regenerate key m gen) gen k Hk').
  pose proof (regenerate_lookup key m gen k Hk) as Hm.
  case_bool_decide as Hin.
  - destruct (regenerate key m gen !! k) eqn:E; [done|].
    rewrite Hm in E. by destruct (m !! k).
  - done.
Qed.

(** X9: regenerating from an empty generated list removes every ability of
    the actor. *)
Theorem RegenerateAbilities_empty (r : BattleRules) (b : Battle) (c : CreatureId)
    (actor : Creature) (seed : option AbilitiesSeed) :
  creatures (entities b) !! c = Some actor ->
  keyed ability_id (abilities actor) ->
  (generate_abilities r seed (entropy b)).1 = [] ->
  exists b' actor',
    RegenerateAbilities_apply r b (EntityId_Creature c) seed = Some b' /\
    creatures (entities b') !! c = Some actor' /\ abilities actor' = ∅ /\
    statistics actor' = statistics actor /\ creature_team_id actor' = creature_team_id actor.
Proof.
  intros Hc Hk Hg. unfold RegenerateAbilities_apply. rewrite Hc.
  destruct (generate_abilities r seed (entropy b)) as [gen en]. simpl in Hg. subst gen.
  eexists _, _. split; [reflexivity|].
  cbn [set_entropy update_creature set_entities set_creatures entities creatures
       set_abilities abilities statistics creature_team_id].
  split; [by rewrite lookup_insert_eq|].
  split; [|done]. apply map_eq. intros k.
  unfold set_abilities; cbn [abilities]. rewrite (regenerate_lookup ability_id (abilities actor) [] k Hk), lookup_empty.
  by rewrite bool_decide_false by (intros ?%elem_of_nil; done).
Qed.

(** X10: a team just created by [CreateTeam] has no members, so [RemoveTeam]
    on it passes verification, and removing it gives back the team store and
    the creatures the battle had before the creation. *)
Theorem CreateTeam_RemoveTeam_roundtrip (r : BattleRules) (b : Battle) (id : TeamId)
    (rels : option (list (TeamId * Relation))) (seed : option ObjectivesSeed) :
  team (entities b) id = None ->
  let b1 := CreateTeam_apply r b id rels seed in
  verify_event b1 (RemoveTeam id) = Ok /\
  exists b2, RemoveTeam_apply b1 id = Some b2 /\
    teams (entities b2) = teams (entities b) /\
    creatures (entities b2) = creatures (entities b).
Proof.
  intros Hn b1.
  destruct (CreateTeam_apply_fresh r b id rels seed Hn) as [Hteams Hcr].
  fold b1 in Hteams, Hcr.
  split.
  - unfold verify_event, RemoveTeam_verify, team. by rewrite Hteams, lookup_insert_eq.
  - unfold RemoveTeam_apply, remove_team. rewrite Hteams, lookup_insert_eq.
    eexists. split; [reflexivity|]. cbn [set_rights set_entities set_teams entities teams creatures].
    rewrite <- Hteams. split; [|exact Hcr].
    rewrite Hteams. apply delete_insert_id. exact Hn.
Qed.

End Battle.

(** ** The relationship key over a partial order *)

(** Under a comparison that orders any two distinct ids one way exactly, the
    key's hash does not depend on the order of the pair. *)
Lemma hash_feed_swap_total {T} `{EqDecision T} (pc : T -> T -> option comparison) (t1 t2 : T) :
  (forall a b, a <> b -> (pc a b = Some Gt <-> pc b a <> Some Gt)) ->
  hash_feed pc (RelationshipPair_new t1 t2) = hash_feed pc (RelationshipPair_new t2 t1).
Proof.
  intros Htot. unfold hash_feed, gt. simpl.
  destruct (decide (t1 = t2)) as [->|Hne]; [done|].
  specialize (Htot t1 t2 Hne).
  destruct (pc t1 t2) as [[]|]; destruct (pc t2 t1) as [[]|]; try done; exfalso; naive_solver.
Qed.

(** X11: when any two distinct ids are ordered one way exactly (as for a
    total order), equal relationship keys give equal hashes, for any hasher. *)
Theorem rp_hash_agrees_with_eq {T} `{EqDecision T} (pc : T -> T -> option comparison)
    (hasher : list T -> Z) (p q : RelationshipPair T) :
  (forall a b, a <> b -> (pc a b = Some Gt <-> pc b a <> Some Gt)) ->
  rp_eq p q = true -> get_hash pc hasher p = get_hash pc hasher q.
Proof.
  intros Htot Heq. unfold get_hash. f_equal.
  destruct p as [a c], q as [a' c']. unfold rp_eq in Heq. simpl in Heq.
  rewrite orb_true_iff, !andb_true_iff, !bool_decide_eq_true in Heq.
  destruct Heq as [[-> ->]|[-> ->]]; [done|]. apply hash_feed_swap_total, Htot.
Qed.

(** A lawful partial order on numbers: numbers of the same parity compare as
    numbers, numbers of different parities are incomparable. *)
Definition parity_cmp (a b : nat) : option comparison :=
  if bool_decide (Nat.even a = Nat.even b) then Some (Nat.compare a b) else None.

(** A hasher as a function of the sequence of values written into it. *)
Definition poly_hasher (l : list nat) : Z :=
  fold_left (fun acc x => acc * 31 + Z.of_nat x + 1)%Z l 7%Z.

(** C5: the key compares order-independently, but its hash is not: with team
    ids under a lawful partial order ([parity_cmp]: it agrees with equality, is
    dual under swapping and is transitive), the ids 1 and 2 are incomparable,
    [1 > 2] and [2 > 1] are both false, and the two equal keys
    [RelationshipPair(1, 2)] and [RelationshipPair(2, 1)] feed the hasher in
    opposite orders and hash to different values. *)
Theorem RelationshipPair_hash_not_symmetric :
  (forall a b, parity_cmp a b = Some Eq <-> a = b) /\
  (forall a b, parity_cmp b a = CompOpp <$> parity_cmp a b) /\
  (forall a b c o, parity_cmp a b = Some o -> parity_cmp b c = Some o -> parity_cmp a c = Some o) /\
  rp_eq (RelationshipPair_new 1 2) (RelationshipPair_new 2 1) = true /\
  hash_feed parity_cmp (RelationshipPair_new 1 2) = [2; 1] /\
  hash_feed parity_cmp (RelationshipPair_new 2 1) = [1; 2] /\
  get_hash parity_cmp poly_hasher (RelationshipPair_new 1 2)
    <> get_hash parity_cmp poly_hasher (RelationshipPair_new 2 1).
Proof.
  split; [|split; [|split; [|split; [reflexivity|split; [reflexivity|split; [reflexivity|]]]]]].
  - intros a b. unfold parity_cmp. case_bool_decide as He.
    + split; [intros Hs; injection Hs as Hs; by apply Nat.compare_eq_iff|].
      intros ->. by rewrite Nat.compare_refl.
    + split; [done|]. intros ->. done.
  - intros a b. unfold parity_cmp.
    case_bool_decide as He1; case_bool_decide as He2; simpl.
    + f_equal. destruct (Nat.compare_spec a b) as [->|Hl|Hl]; simpl;
        [apply Nat.compare_refl|apply Nat.compare_gt_iff; lia|apply Nat.compare_lt_iff; lia].
    + exfalso. congruence.
    + exfalso. congruence.
    + done.
  - intros a b c o. unfold parity_cmp.
    case_bool_decide as Hab; [|done]. case_bool_decide as Hbc; [|done].
    rewrite (bool_decide_true (Nat.even a = Nat.even c)) by congruence.
    intros Hab' Hbc'. injection Hab' as Hab'. injection Hbc' as Hbc'. f_equal.
    destruct o.
    + apply Nat.compare_eq_iff in Hab', Hbc'. apply Nat.compare_eq_iff. lia.
    + apply Nat.compare_lt_iff in Hab', Hbc'. apply Nat.compare_lt_iff. lia.
    + apply Nat.compare_gt_iff in Hab', Hbc'. apply Nat.compare_gt_iff. lia.
  - vm_compute. discriminate.
Qed.

(** ** A concrete instance, as in the integration tests *)

(** Team, creature, player, statistic and ability ids are numbers; statistics
    and abilities are (id, value) pairs; a seed is the list to generate. *)
Definition Stat : Type := (nat * nat)%type.

Definition TBattle : Type :=
  @Battle nat nat nat nat nat _ _ _ _ _ _ _ _ _ _
    Stat Stat unit unit (list Stat) (list Stat) unit unit unit unit.

Definition TRules : Type :=
  @BattleRules nat nat nat nat nat _ _ _ _ _ _ _ _ _ _
    Stat Stat unit unit (list Stat) (list Stat) unit unit unit unit.

(** Rules generating the seed's entries, whose character rule removes the
    creature on any alteration. *)
Definition test_rules (v : nat) : TRules :=
  mkBattleRules (fun _ => tt) (fun s e => (default [] s, e)) (fun s e => (default [] s, e))
    (fun st _ e => (st, Some REMOVAL, e)) (fun a _ e => (a, e)) (fun _ _ e => ([], e)) v.

(** The [PartialOrd] of integer team ids. *)
Definition nat_cmp (a b : nat) : option comparison := Some (Nat.compare a b).

Definition empty_battle : TBattle := mkBattle (mkEntities ∅ ∅ []) Ready ∅ [] tt.

(** Team 1 holding creature 1 with abilities (1, 10) and (2, 10). *)
Definition regen_actor : Creature (TeamId := nat) (CreatureId := nat) (StatisticId := nat)
    (AbilityId := nat) (Statistic := Stat) (Ability := Stat) :=
  mkCreature 1 1 ∅ (<[1 := (1, 10)]> (<[2 := (2, 10)]> ∅)).

Definition regen_battle : TBattle :=
  mkBattle (mkEntities (<[1 := mkTeam 1 [1] None tt]> ∅) (<[1 := regen_actor]> ∅) [])
    Ready ∅ [] tt.

(** Teams 1 and 2, without relations. *)
Definition two_teams : TBattle :=
  mkBattle (mkEntities (<[1 := mkTeam 1 [] None tt]> (<[2 := mkTeam 2 [] None tt]> ∅)) ∅ [])
    Ready ∅ [] tt.

(** Team 1 alone. *)
Definition one_team : TBattle :=
  mkBattle (mkEntities (<[1 := mkTeam 1 [] None tt]> ∅) ∅ []) Ready ∅ [] tt.

(** The round started on creature 1. *)
Definition round_battle : TBattle :=
  mkBattle (mkEntities (<[1 := mkTeam 1 [1] None tt]> ∅) (<[1 := mkCreature 1 1 ∅ ∅]> ∅) [])
    (Started (EntityId_Creature 1)) ∅ [] tt.

Lemma nat_cmp_total : ids_totally_ordered nat_cmp.
Proof.
  intros a b Hab. unfold nat_cmp. destruct (Nat.compare_spec a b) as [Hl|Hl|Hl].
  - lia.
  - rewrite (proj2 (Nat.compare_gt_iff b a)) by lia. split; [discriminate|].
    intros Hn. exfalso. by apply Hn.
  - rewrite (proj2 (Nat.compare_lt_iff b a)) by lia. split; [intros _; discriminate|done].
Qed.

(** C2: the relation set by [CreateTeam] is stored under the single key
    [RelationshipPair(new, other)], and a lookup from the other side misses it
    when the two ids are incomparable. With team ids under the lawful partial
    order [parity_cmp] (C5) and an order-sensitive hasher, [CreateTeam(2)]
    without relations on a battle holding team 1 passes verification;
    afterwards [relation(2, 1)] is [Enemy], but [relation(1, 2)] is [None]:
    the pre-existing team 1 is not an enemy of the new team when asked from
    its side. *)
Theorem CreateTeam_relation_one_way :
  verify_event one_team (CreateTeam 2 None None) = Ok /\
  relation parity_cmp poly_hasher
    (entities (CreateTeam_apply parity_cmp poly_hasher (test_rules 0) one_team 2 None None)) 2 1
    = Some Enemy /\
  relation parity_cmp poly_hasher
    (entities (CreateTeam_apply parity_cmp poly_hasher (test_rules 0) one_team 2 None None)) 1 2
    = None.
Proof. split; [reflexivity|split]; vm_compute; reflexivity. Qed.

Lemma RegenerateAbilities_regenerates_witness :
  creatures (entities regen_battle) !! 1 = Some regen_actor /\
  keyed fst (abilities regen_actor) /\
  exists b' actor',
    RegenerateAbilities_apply fst (test_rules 0) regen_battle (EntityId_Creature 1)
      (Some [(1, 0); (3, 10)]) = Some b' /\
    creatures (entities b') !! 1 = Some actor' /\
    (forall k, is_Some (abilities actor' !! k) <-> k ∈ [1; 3]).
Proof.
  assert (Hc : creatures (entities regen_battle) !! 1 = Some regen_actor) by reflexivity.
  assert (Hk : keyed fst (abilities regen_actor)).
  { apply map_Forall_insert_2; [reflexivity|].
    apply map_Forall_insert_2; [reflexivity|]. apply map_Forall_empty. }
  split; [exact Hc|split; [exact Hk|]].
  destruct (RegenerateAbilities_regenerates fst (test_rules 0) regen_battle 1 regen_actor
              (Some [(1, 0); (3, 10)]) Hc Hk) as [_ (b' & actor' & Ha & Hc' & Hids & _)].
  exists b', actor'. split; [exact Ha|split; [exact Hc'|exact Hids]].
Defined.

Lemma CreateTeam_relations_witness :
  keyed team_id (teams (entities two_teams)) /\
  CreateTeam_verify two_teams 3 (Some [(1, Ally)]) = Ok /\
  relation nat_cmp poly_hasher (entities (CreateTeam_apply nat_cmp poly_hasher (test_rules 0) two_teams 3 (Some [(1, Ally)]) None)) 3 1
    = Some Ally /\
  relation nat_cmp poly_hasher (entities (CreateTeam_apply nat_cmp poly_hasher (test_rules 0) two_teams 3 (Some [(1, Ally)]) None)) 2 3
    = Some Enemy.
Proof.
  assert (Hk : keyed team_id (teams (entities two_teams))).
  { apply map_Forall_insert_2; [reflexivity|].
    apply map_Forall_insert_2; [reflexivity|]. apply map_Forall_empty. }
  assert (Hv : CreateTeam_verify two_teams 3 (Some [(1, Ally)]) = Ok) by reflexivity.
  destruct (CreateTeam_relations nat_cmp poly_hasher (test_rules 0) two_teams 3 (Some [(1, Ally)]) None Hk Hv)
    as [Hlisted Hothers].
  split; [exact Hk|split; [exact Hv|split]].
  - refine (proj1 (Hlisted [] 1 Ally [] eq_refl _)). simpl. set_solver.
  - refine (proj2 (Hothers 2 _ _) nat_cmp_total); [eexists; reflexivity|simpl; set_solver].
Defined.

Lemma verify_error_no_mutation_witness :
  verify_event empty_battle (RemoveTeam 1) = Err (TeamNotFound 1) /\
  process_server fst fst nat_cmp poly_hasher (test_rules 0) 5 empty_battle (RemoveTeam 1)
    = Some (empty_battle, Err (TeamNotFound 1)).
Proof.
  assert (Hv : verify_event empty_battle (RemoveTeam 1) = Err (TeamNotFound 1)) by reflexivity.
  split; [exact Hv|].
  exact (proj1 (verify_error_no_mutation fst fst nat_cmp poly_hasher (test_rules 0) empty_battle (RemoveTeam 1)
                  (TeamNotFound 1) Hv) 5).
Defined.

(** The entry [(1, Kin)] names the new team and is a kinship: the first check
    wins and the error is [SelfRelation], not [KinshipRelation]. *)
Lemma CreateTeam_self_kin_counterexample :
  ((1, Kin) : nat * Relation) ∈ [(1, Kin)] /\
  team (entities empty_battle) 1 = None /\
  CreateTeam_verify empty_battle 1 (Some [(1, Kin)]) = Err SelfRelation /\
  CreateTeam_verify empty_battle 1 (Some [(1, Kin)]) <> Err KinshipRelation.
Proof. split; [left|]. split; [reflexivity|]. split; [reflexivity|]. discriminate. Qed.

Lemma remove_acting_creature_ends_round_witness :
  exists b' res,
    process_server fst fst nat_cmp poly_hasher (test_rules 0) 10 round_battle
      (AlterStatistics (EntityId_Creature 1) tt) = Some (b', res) /\
    creatures (entities b') !! 1 = None /\ rounds b' = Ready /\ res = Ok.
Proof.
  destruct (process_server fst fst nat_cmp poly_hasher (test_rules 0) 10 round_battle
              (AlterStatistics (EntityId_Creature 1) tt)) as [[b' res]|] eqn:Hp.
  - assert (Hnd : NoDup (team_creatures (mkTeam 1 [1] None tt))) by apply NoDup_singleton.
    destruct (remove_acting_creature_ends_round fst fst nat_cmp poly_hasher (test_rules 0) 10 round_battle b' 1
                (mkCreature 1 1 ∅ ∅) (mkTeam 1 [1] None tt)
                (AlterStatistics (EntityId_Creature 1) tt) res
                eq_refl eq_refl eq_refl Hnd
                (or_intror (ex_intro _ tt (conj eq_refl eq_refl))) Hp)
      as (Hgone & _ & Hready & Hok).
    exists b', res. done.
  - vm_compute in Hp. discriminate.
Defined.

Lemma ResetObjectives_resets_witness :
  team (entities regen_battle) 1 = Some (mkTeam 1 [1] None tt) /\
  verify_event regen_battle (ResetObjectives 1 None) = Ok /\
  exists b', ResetObjectives_apply (test_rules 0) regen_battle 1 None = Some b' /\
    team (entities b') 1 = Some (mkTeam 1 [1] None tt).
Proof.
  assert (Ht : team (entities regen_battle) 1 = Some (mkTeam 1 [1] None tt)) by reflexivity.
  destruct (ResetObjectives_resets (test_rules 0) regen_battle 1 None _ Ht)
    as [Hv (b' & Ha & Hb' & _)].
  split; [exact Ht|split; [exact Hv|]]. exists b'. split; [exact Ha|exact Hb'].
Defined.

Lemma rp_hash_agrees_with_eq_witness :
  (forall a b : nat, a <> b -> (Some (Nat.compare a b) = Some Gt <-> Some (Nat.compare b a) <> Some Gt)) /\
  rp_eq (RelationshipPair_new 1 2) (RelationshipPair_new 2 1) = true /\
  get_hash (fun a b => Some (Nat.compare a b)) poly_hasher (RelationshipPair_new 1 2)
    = get_hash (fun a b => Some (Nat.compare a b)) poly_hasher (RelationshipPair_new 2 1).
Proof.
  assert (Htot : forall a b : nat, a <> b ->
            (Some (Nat.compare a b) = Some Gt <-> Some (Nat.compare b a) <> Some Gt)).
  { intros a b Hab. destruct (Nat.compare_spec a b) as [Hl|Hl|Hl].
    - lia.
    - rewrite (proj2 (Nat.compare_gt_iff b a)) by lia. split; [discriminate|]. by intros [].
    - rewrite (proj2 (Nat.compare_lt_iff b a)) by lia. split; [intros _; discriminate|done]. }
  assert (Heq : rp_eq (RelationshipPair_new 1 2) (RelationshipPair_new 2 1) = true)
    by reflexivity.
  split; [exact Htot|split; [exact Heq|]].
  exact (rp_hash_agrees_with_eq (fun a b => Some (Nat.compare a b)) poly_hasher _ _ Htot Heq).
Defined.

Lemma SetRelations_apply_relation_witness :
  ids_totally_ordered nat_cmp /\ (2 : nat) <> 1 /\
  relation nat_cmp poly_hasher (entities (SetRelations_apply nat_cmp poly_hasher two_teams [(1, 2, Ally)])) 2 1 = Some Ally.
Proof.
  assert (Hne : (2 : nat) <> 1) by lia. split; [exact nat_cmp_total|split; [exact Hne|]].
  rewrite (proj1 (SetRelations_apply_relation nat_cmp poly_hasher two_teams [(1, 2, Ally)] 2 1
                    nat_cmp_total Hne)).
  reflexivity.
Defined.

Lemma CreateTeam_apply_store_witness :
  keyed team_id (teams (entities two_teams)) /\ team (entities two_teams) 3 = None /\
  team (entities (CreateTeam_apply nat_cmp poly_hasher (test_rules 0) two_teams 3 None None)) 3
    = Some (mkTeam 3 [] None tt) /\
  CreateTeam_verify (CreateTeam_apply nat_cmp poly_hasher (test_rules 0) two_teams 3 None None) 3 None
    = Err (DuplicatedTeam 3).
Proof.
  assert (Hk : keyed team_id (teams (entities two_teams))).
  { apply map_Forall_insert_2; [reflexivity|].
    apply map_Forall_insert_2; [reflexivity|]. apply map_Forall_empty. }
  assert (Hn : team (entities two_teams) 3 = None) by reflexivity.
  pose proof (CreateTeam_apply_store nat_cmp poly_hasher (test_rules 0) two_teams 3 None None Hk Hn)
    as Hs.
  cbv zeta in Hs. destruct Hs as (Hid & _ & _ & _ & _ & Hdup).
  split; [exact Hk|split; [exact Hn|split; [exact Hid|exact (Hdup None)]]].
Defined.

Lemma regenerate_idempotent_witness :
  keyed fst (abilities regen_actor) /\
  regenerate fst (regenerate fst (abilities regen_actor) [(1, 0); (3, 10)]) [(1, 0); (3, 10)]
    = regenerate fst (abilities regen_actor) [(1, 0); (3, 10)].
Proof.
  assert (Hk : keyed fst (abilities regen_actor)).
  { apply map_Forall_insert_2; [reflexivity|].
    apply map_Forall_insert_2; [reflexivity|]. apply map_Forall_empty. }
  split; [exact Hk|exact (proj2 (regenerate_idempotent fst _ [(1, 0); (3, 10)] Hk))].
Defined.

Lemma RegenerateAbilities_empty_witness :
  creatures (entities regen_battle) !! 1 = Some regen_actor /\
  keyed fst (abilities regen_actor) /\
  (generate_abilities (test_rules 0) (Some []) (entropy regen_battle)).1 = [] /\
  exists b' actor',
    RegenerateAbilities_apply fst (test_rules 0) regen_battle (EntityId_Creature 1) (Some [])
      = Some b' /\
    creatures (entities b') !! 1 = Some actor' /\ abilities actor' = ∅.
Proof.
  assert (Hc : creatures (entities regen_battle) !! 1 = Some regen_actor) by reflexivity.
  assert (Hk : keyed fst (abilities regen_actor)).
  { apply map_Forall_insert_2; [reflexivity|].
    apply map_Forall_insert_2; [reflexivity|]. apply map_Forall_empty. }
  assert (Hg : (generate_abilities (test_rules 0) (Some []) (entropy regen_battle)).1 = [])
    by reflexivity.
  split; [exact Hc|split; [exact Hk|split; [exact Hg|]]].
  destruct (RegenerateAbilities_empty fst (test_rules 0) regen_battle 1 regen_actor (Some [])
              Hc Hk Hg) as (b' & actor' & Ha & Hc' & Hab & _).
  exists b', actor'. split; [exact Ha|split; [exact Hc'|exact Hab]].
Defined.

Lemma CreateTeam_RemoveTeam_roundtrip_witness :
  team (entities two_teams) 3 = None /\
  verify_event (CreateTeam_apply nat_cmp poly_hasher (test_rules 0) two_teams 3 None None) (RemoveTeam 3) = Ok /\
  exists b2, RemoveTeam_apply (CreateTeam_apply nat_cmp poly_hasher (test_rules 0) two_teams 3 None None) 3 = Some b2 /\
    teams (entities b2) = teams (entities two_teams).
Proof.
  assert (Hn : team (entities two_teams) 3 = None) by reflexivity.
  pose proof (CreateTeam_RemoveTeam_roundtrip nat_cmp poly_hasher (test_rules 0) two_teams 3 None None Hn) as Hs.
  cbv zeta in Hs. destruct Hs as [Hv (b2 & Ha & Ht & _)].
  split; [exact Hn|split; [exact Hv|]]. exists b2. split; [exact Ha|exact Ht].
Defined.
